(** * Ranking and notification fan-out of the FETU Optima backend

    A shallow embedding of the leaderboard update path
    ([app/api/v1/endpoints/puzzles.py], [app/api/v1/endpoints/leaderboard.py]),
    the Redis cache wrapper ([app/core/cache.py]) and the websocket
    connection registry and the websocket endpoints
    ([app/websockets/server.py]), with the properties the specification
    states about them and further properties read off the code.

    Conventions.  Python dictionaries are [gmap]s and Python sets are
    [gset]s.  A coroutine is a function from the state it touches to a
    result and the new state; an exception is the [Raise] result, and the
    state returned with it records what had been mutated before the
    exception left the function. *)

From Stdlib Require Import ZArith Lia Ascii String.
From stdpp Require Import base decidable option list gmap fin_maps fin_sets strings pretty sorting.

Open Scope string_scope.
Open Scope Z_scope.

(** ** Python values, exceptions and the state-and-exception monad *)

Module Py.

(** The exceptions that the modelled code can raise. *)
Inductive exn : Type :=
| TypeError          (* call that does not match the callee's signature *)
| AttributeError     (* attribute that the object does not have *)
| KeyError           (* missing dict key or set element *)
| ValueError         (* [int()] of a text that is not a number *)
| NameError          (* a name that is bound nowhere in the module *)
| DataError          (* the Redis client cannot encode the value it is given *)
| ResponseError      (* Redis refused the command *)
| OperationalError   (* the database refused the commit *)
| TransportError     (* send on a websocket whose transport is broken *)
| HTTPException (status : Z).

Inductive result (A : Type) : Type :=
| Ok (a : A)
| Raise (e : exn).
Arguments Ok {A} a.
Arguments Raise {A} e.

Definition M (S A : Type) : Type := S -> result A * S.

Definition ret {S A} (a : A) : M S A := fun s => (Ok a, s).
Definition raise {S A} (e : exn) : M S A := fun s => (Raise e, s).
Definition bind {S A B} (c : M S A) (k : A -> M S B) : M S B :=
  fun s => match c s with
           | (Ok a, s') => k a s'
           | (Raise e, s') => (Raise e, s')
           end.
Definition gets {S A} (f : S -> A) : M S A := fun s => (Ok (f s), s).
Definition modify {S} (f : S -> S) : M S unit := fun s => (Ok tt, f s).

(** Running a computation of a component inside a larger state. *)
Definition zoom {S T A} (proj : T -> S) (upd : S -> T -> T) (c : M S A) : M T A :=
  fun t => let '(r, s') := c (proj t) in (r, upd s' t).

(** [for x in xs: body(x)]: the first exception ends the loop. *)
Fixpoint for_each {S A} (xs : list A) (body : A -> M S unit) : M S unit :=
  match xs with
  | [] => ret tt
  | x :: xs' => bind (body x) (fun _ => for_each xs' body)
  end.

Definition is_ok {A} (r : result A) : bool :=
  match r with Ok _ => true | Raise _ => false end.

End Py.

Import Py.

Declare Scope py_scope.
Delimit Scope py_scope with py.
Notation "'let*' x ':=' c 'in' k" := (bind c (fun x => k))
  (at level 10, x name, c at level 100, k at level 200) : py_scope.
Notation "c ';;' k" := (bind c (fun _ => k))
  (at level 100, k at level 200, right associativity) : py_scope.
Open Scope py_scope.

(** ** Values passed to and returned by the cache wrapper *)

(** An entry of a leaderboard page, as the dictionaries built by
    [get_global_leaderboard]. The rating is a float in the source; it is
    only copied around, and is carried here as an opaque number. *)
Record LeaderboardEntry : Type := {
  e_user_id : Z;
  e_username : string;
  e_total_score : Z;
  e_rank : Z;
  e_rating : Z;
  e_puzzles_solved : Z;
  e_win_streak : Z
}.

Inductive pyval : Type :=
| VNone
| VInt (z : Z)
| VStr (s : string)
| VPairs (l : list (string * Z))          (* members with scores *)
| VEntries (l : list LeaderboardEntry)    (* a leaderboard page *)
| VUser (user_id score : Z) (rank : option Z).   (* a member's score and rank *)

(** Python truthiness. *)
Definition truthy (v : pyval) : bool :=
  match v with
  | VNone => false
  | VInt z => negb (z =? 0)
  | VStr s => negb (String.eqb s EmptyString)
  | VPairs l => negb (Nat.eqb (length l) 0)
  | VEntries l => negb (Nat.eqb (length l) 0)
  | VUser _ _ _ => true
  end.

(** Decimal texts with an optional minus sign, read as [int()] reads
    the text of a counter. *)
Definition digit_of (c : ascii) : option Z :=
  let n := Z.of_N (Ascii.N_of_ascii c) in
  if (48 <=? n) && (n <=? 57) then Some (n - 48) else None.

Fixpoint parse_digits (s : string) (acc : Z) : option Z :=
  match s with
  | EmptyString => Some acc
  | String c s' =>
      match digit_of c with
      | Some d => parse_digits s' (10 * acc + d)
      | None => None
      end
  end.

Definition parse_int (s : string) : option Z :=
  match s with
  | EmptyString => None
  | String "-"%char EmptyString => None
  | String "-"%char s' => Z.opp <$> parse_digits s' 0
  | _ => parse_digits s 0
  end.

(** ** The Redis keyspace ([redis.asyncio] behind [CacheService]) *)

Module Redis.

(** A key holds a string, with an optional absolute expiry time, or a
    sorted set of members with scores. The pool is made with
    [decode_responses=True]: strings are texts. Scores are integers
    here; Redis keeps a score as a double, which holds an integer
    exactly up to [2^53] in magnitude. *)
Inductive rvalue : Type :=
| RStr (s : string) (expires : option Z)
| RZSet (members : gmap string Z).

Record t : Type := { keys : gmap string rvalue; now : Z }.

Definition empty : t := {| keys := ∅; now := 0 |}.

Definition with_keys (f : gmap string rvalue -> gmap string rvalue) (r : t) : t :=
  {| keys := f (keys r); now := now r |}.

(** Time passing in the Redis server. *)
Definition advance (dt : Z) (r : t) : t :=
  {| keys := keys r; now := now r + dt |}.

(** The value under a key, unless it has expired. *)
Definition lookup_live (k : string) (r : t) : option rvalue :=
  match keys r !! k with
  | Some (RStr s (Some e)) => if decide (e <= now r) then None else Some (RStr s (Some e))
  | o => o
  end.

(** What the client sends for a value: a text as it is, a number as
    its decimal text; any other value ([None], a list, a dictionary) it
    refuses. *)
Definition encode (v : pyval) : option string :=
  match v with
  | VStr s => Some s
  | VInt z => Some (pretty z)
  | _ => None
  end.

(** GET *)
Definition get (k : string) : M t pyval := fun r =>
  match lookup_live k r with
  | None => (Ok VNone, r)
  | Some (RStr s _) => (Ok (VStr s), r)
  | Some (RZSet _) => (Raise ResponseError, r)
  end.

(** SET key value EX seconds: the client raises on a value it cannot
    encode, before anything is sent; the server refuses a time to live
    that is not positive. *)
Definition set (k : string) (v : pyval) (ex : Z) : M t unit := fun r =>
  match encode v with
  | None => (Raise DataError, r)
  | Some s =>
      if ex <=? 0 then (Raise ResponseError, r)
      else (Ok tt, with_keys (insert k (RStr s (Some (now r + ex)))) r)
  end.

(** DEL key: the key is a name, never a pattern. *)
Definition delete (k : string) : M t unit := fun r =>
  (Ok tt, with_keys (base.delete k) r).

(** The integers of INCR are signed 64-bit. *)
Definition int64_min : Z := -9223372036854775808.
Definition int64_max : Z := 9223372036854775807.

(** A string that Redis takes for an integer: the decimal text of a
    64-bit integer exactly as Redis would write it (no leading zeros, no
    minus zero, no plus sign). *)
Definition read_int (s : string) : option Z :=
  match parse_int s with
  | Some z =>
      if String.eqb (pretty z) s && (int64_min <=? z) && (z <=? int64_max)
      then Some z else None
  | None => None
  end.

(** INCR key: adds one to the integer under the key, starting from zero
    when the key is absent, and keeps its expiry; refused when the
    string is not an integer or the sum would overflow. *)
Definition incr (k : string) : M t Z := fun r =>
  match lookup_live k r with
  | None => (Ok 1, with_keys (insert k (RStr "1" None)) r)
  | Some (RStr s e) =>
      match read_int s with
      | Some z =>
          if z <? int64_max
          then (Ok (z + 1), with_keys (insert k (RStr (pretty (z + 1)) e)) r)
          else (Raise ResponseError, r)
      | None => (Raise ResponseError, r)
      end
  | Some (RZSet _) => (Raise ResponseError, r)
  end.

(** The integers that a double holds exactly. *)
Definition exact (score : Z) : Prop := Z.abs score <= 9007199254740992.

(** ZADD key score member: sets the member's score. The score is kept
    as the integer it is given, which is what Redis does for the [exact]
    ones; beyond them Redis rounds to a double. *)
Definition zadd (k : string) (member : string) (score : Z) : M t unit := fun r =>
  match lookup_live k r with
  | None => (Ok tt, with_keys (insert k (RZSet {[ member := score ]})) r)
  | Some (RZSet m) => (Ok tt, with_keys (insert k (RZSet (<[ member := score ]> m))) r)
  | Some (RStr _ _) => (Raise ResponseError, r)
  end.

(** The score of a member of a sorted set. *)
Definition zscore (k : string) (member : string) (r : t) : option Z :=
  match lookup_live k r with
  | Some (RZSet m) => m !! member
  | _ => None
  end.

(** Sorted-set order: by score, then by member name. *)
Definition zle (a b : string * Z) : bool :=
  (a.2 <? b.2) || ((a.2 =? b.2) && String.leb a.1 b.1).

Fixpoint zinsert (x : string * Z) (l : list (string * Z)) : list (string * Z) :=
  match l with
  | [] => [x]
  | y :: l' => if zle x y then x :: y :: l' else y :: zinsert x l'
  end.

Definition zsorted (m : gmap string Z) : list (string * Z) :=
  foldr zinsert [] (map_to_list m).

(** An index of ZRANGE: a negative index counts from the end. *)
Definition zindex (len i : Z) : Z := if i <? 0 then len + i else i.

(** ZRANGE key start stop [REV] WITHSCORES: both ends inclusive; a
    start before the first member is the first member, a stop past the
    last one is the last one, and the range is empty when the stop
    comes before the start. *)
Definition zrange (k : string) (start stop : Z) (desc : bool) : M t pyval := fun r =>
  match lookup_live k r with
  | None => (Ok (VPairs []), r)
  | Some (RZSet m) =>
      let l := if desc then rev (zsorted m) else zsorted m in
      let len := Z.of_nat (length l) in
      let a := Z.max 0 (zindex len start) in
      let b := Z.min (zindex len stop) (len - 1) in
      (Ok (VPairs (take (Z.to_nat (b - a + 1)) (drop (Z.to_nat a) l))), r)
  | Some (RStr _ _) => (Raise ResponseError, r)
  end.

End Redis.

(** ** [CacheService] ([app/core/cache.py]) *)

Module CacheService.

(** The methods of the class, each on the positional arguments it is
    called with ([self] apart). A call with more or fewer arguments
    than the signature takes raises [TypeError]. *)

(** [async def set(self, key, value, expire=3600)] *)
Definition set (args : list pyval) : M Redis.t pyval :=
  match args with
  | [VStr key; value] => Redis.set key value 3600 ;; ret VNone
  | [VStr key; value; VInt expire] => Redis.set key value expire ;; ret VNone
  | _ => raise TypeError
  end.

(** [async def get(self, key)] *)
Definition get (args : list pyval) : M Redis.t pyval :=
  match args with
  | [VStr key] => Redis.get key
  | _ => raise TypeError
  end.

(** [async def delete(self, key)] *)
Definition delete (args : list pyval) : M Redis.t pyval :=
  match args with
  | [VStr key] => Redis.delete key ;; ret VNone
  | _ => raise TypeError
  end.

(** [async def increment(self, key)]: [self.redis.incr(key)] *)
Definition increment (args : list pyval) : M Redis.t pyval :=
  match args with
  | [VStr key] => let* n := Redis.incr key in ret (VInt n)
  | _ => raise TypeError
  end.

(** [async def add_to_sorted_set(self, key, score, member)] *)
Definition add_to_sorted_set (args : list pyval) : M Redis.t pyval :=
  match args with
  | [VStr key; VInt score; VStr member] => Redis.zadd key member score ;; ret VNone
  | _ => raise TypeError
  end.

(** [async def get_sorted_set_range(self, key, start, end, desc=True)] *)
Definition get_sorted_set_range (args : list pyval) : M Redis.t pyval :=
  match args with
  | [VStr key; VInt start; VInt stop] => Redis.zrange key start stop true
  | [VStr key; VInt start; VInt stop; VInt desc] => Redis.zrange key start stop (negb (desc =? 0))
  | _ => raise TypeError
  end.

(** The attributes of a [CacheService] object that are methods. *)
Definition methods : list (string * (list pyval -> M Redis.t pyval)) :=
  [ ("set", set); ("get", get); ("delete", delete); ("increment", increment);
    ("add_to_sorted_set", add_to_sorted_set);
    ("get_sorted_set_range", get_sorted_set_range) ].

Fixpoint getattr (name : string) (ms : list (string * (list pyval -> M Redis.t pyval)))
  : option (list pyval -> M Redis.t pyval) :=
  match ms with
  | [] => None
  | (n, f) :: ms' => if String.eqb n name then Some f else getattr name ms'
  end.

(** [await cache.name(args)]: attribute lookup, then the call. *)
Definition call (name : string) (args : list pyval) : M Redis.t pyval :=
  match getattr name methods with
  | Some f => f args
  | None => raise AttributeError
  end.

End CacheService.

(** ** The connection registry ([app/websockets/server.py]) *)

(** A websocket object is identified by a number. *)
Abbreviation WebSocket := positive.

(** The JSON messages sent to clients: a type tag, the category of a
    category update, and the data. *)
Record message : Type := {
  msg_type : string;
  msg_category : option string;
  msg_data : pyval
}.

Module Server.

(** [class ConnectionManager]: the two dictionaries of [__init__]. *)
Record ConnectionManager : Type := {
  active_connections : gmap Z (gset WebSocket);
  user_channels : gmap Z (gset string)
}.

(** [ConnectionManager()] *)
Definition init : ConnectionManager :=
  {| active_connections := ∅; user_channels := ∅ |}.

(** A manager together with the transport under it: the websockets
    whose transport is broken, on which [accept] and [send_json] raise,
    and the log of the messages handed to the others. *)
Record Net : Type := {
  manager : ConnectionManager;
  broken : gset WebSocket;
  delivered : list (WebSocket * message)
}.

Definition start : Net := {| manager := init; broken := ∅; delivered := [] |}.

Definition with_manager (f : ConnectionManager -> ConnectionManager) (n : Net) : Net :=
  {| manager := f (manager n); broken := broken n; delivered := delivered n |}.

Definition set_active (a : gmap Z (gset WebSocket)) (m : ConnectionManager) : ConnectionManager :=
  {| active_connections := a; user_channels := user_channels m |}.

Definition set_channels (c : gmap Z (gset string)) (m : ConnectionManager) : ConnectionManager :=
  {| active_connections := active_connections m; user_channels := c |}.

(** [await websocket.accept()] *)
Definition accept (websocket : WebSocket) : M Net unit := fun n =>
  if decide (websocket ∈ broken n) then (Raise TransportError, n) else (Ok tt, n).

(** [await connection.send_json(message)] *)
Definition send_json (msg : message) (connection : WebSocket) : M Net unit := fun n =>
  if decide (connection ∈ broken n) then (Raise TransportError, n)
  else (Ok tt, {| manager := manager n; broken := broken n;
                  delivered := delivered n ++ [(connection, msg)] |}).

(** [if channel:] on an [Optional[str]] *)
Definition given (channel : option string) : bool :=
  match channel with
  | Some c => negb (String.eqb c EmptyString)
  | None => false
  end.

(** [self.active_connections[user_id].add(websocket)] *)
Definition add_connection (user_id : Z) (websocket : WebSocket) : M Net unit := fun n =>
  match active_connections (manager n) !! user_id with
  | Some conns =>
      (Ok tt, with_manager
                (fun m => set_active (<[ user_id := {[ websocket ]} ∪ conns ]> (active_connections m)) m) n)
  | None => (Raise KeyError, n)
  end.

(** [self.user_channels[user_id].add(channel)] *)
Definition add_channel (user_id : Z) (channel : string) : M Net unit := fun n =>
  match user_channels (manager n) !! user_id with
  | Some chans =>
      (Ok tt, with_manager
                (fun m => set_channels (<[ user_id := {[ channel ]} ∪ chans ]> (user_channels m)) m) n)
  | None => (Raise KeyError, n)
  end.

(** [async def connect(self, websocket, user_id, channel=None)] *)
Definition connect (websocket : WebSocket) (user_id : Z) (channel : option string)
  : M Net unit :=
  accept websocket ;;
  let* known := gets (fun n => bool_decide (is_Some (active_connections (manager n) !! user_id))) in
  (if known then ret tt
   else modify (with_manager (fun m =>
          {| active_connections := <[ user_id := ∅ ]> (active_connections m);
             user_channels := <[ user_id := ∅ ]> (user_channels m) |}))) ;;
  add_connection user_id websocket ;;
  match channel with
  | Some c => if given channel then add_channel user_id c else ret tt
  | None => ret tt
  end.

(** [async def disconnect(self, websocket, user_id)] *)
Definition disconnect (websocket : WebSocket) (user_id : Z) : M Net unit := fun n =>
  let m := manager n in
  match active_connections m !! user_id with
  | None => (Raise KeyError, n)
  | Some conns =>
      if decide (websocket ∈ conns) then
        let rest := conns ∖ {[ websocket ]} in
        if decide (rest = ∅) then
          let m1 := set_active (delete user_id (active_connections m)) m in
          match user_channels m !! user_id with
          | Some _ =>
              (Ok tt, with_manager (fun _ => set_channels (delete user_id (user_channels m)) m1) n)
          | None => (Raise KeyError, with_manager (fun _ => m1) n)
          end
        else
          (Ok tt, with_manager (fun _ => set_active (<[ user_id := rest ]> (active_connections m)) m) n)
      else (Raise KeyError, n)
  end.

(** [async def send_personal_message(self, message, user_id)] *)
Definition send_personal_message (msg : message) (user_id : Z) : M Net unit := fun n =>
  match active_connections (manager n) !! user_id with
  | Some conns => for_each (elements conns) (send_json msg) n
  | None => (Ok tt, n)
  end.

(** [async def broadcast(self, message, channel=None)]. The loop takes
    the members in the order of [map_to_list]; a Python dictionary
    gives them in the order in which they were first connected. The
    order decides only which members have been served when a send
    raises. *)
Definition broadcast (msg : message) (channel : option string) : M Net unit := fun n =>
  for_each (map_to_list (user_channels (manager n)))
    (fun '(user_id, channels) =>
       if negb (given channel) || bool_decide (default EmptyString channel ∈ channels)
       then send_personal_message msg user_id
       else ret tt) n.

(** The websockets that a broadcast on a channel reaches: the
    recipients of [broadcast] run on an empty log. *)
Definition recipients (channel : option string) (n : Net) : list WebSocket :=
  let probe := {| msg_type := "probe"; msg_category := None; msg_data := VNone |} in
  (delivered (broadcast probe channel
     {| manager := manager n; broken := broken n; delivered := [] |}).2).*1.

(** What can happen to a registry, one event at a time. The endpoint
    catches or drops the exception of an event; the state it leaves is
    kept. *)
Inductive event : Type :=
| Connect (websocket : WebSocket) (user_id : Z) (channel : option string)
| Disconnect (websocket : WebSocket) (user_id : Z)
| Personal (msg : message) (user_id : Z)
| Broadcast (msg : message) (channel : option string).

Definition step (e : event) (n : Net) : Net :=
  match e with
  | Connect ws u c => (connect ws u c n).2
  | Disconnect ws u => (disconnect ws u n).2
  | Personal msg u => (send_personal_message msg u n).2
  | Broadcast msg c => (broadcast msg c n).2
  end.

Definition run (es : list event) (n : Net) : Net := foldl (fun n e => step e n) n es.

Definition connects (websocket : WebSocket) (e : event) : bool :=
  match e with
  | Connect ws _ _ => bool_decide (ws = websocket)
  | _ => false
  end.

(** The messages handed to a websocket. *)
Definition inbox (websocket : WebSocket) (n : Net) : list message :=
  (filter (fun d => d.1 = websocket) (delivered n)).*2.

(** The registry invariant: both dictionaries have the same keys and no
    member is kept with an empty set of connections. *)
Definition consistent (m : ConnectionManager) : Prop :=
  dom (active_connections m) = dom (user_channels m) ∧
  map_Forall (fun _ conns => conns ≠ ∅) (active_connections m).

(** A websocket registered under no other member than [user_id]. *)
Definition owned_by (m : ConnectionManager) (websocket : WebSocket) (user_id : Z) : Prop :=
  map_Forall (fun u conns => websocket ∈ conns → u = user_id) (active_connections m).

(** A websocket in no connection set at all. *)
Definition unregistered (m : ConnectionManager) (websocket : WebSocket) : Prop :=
  map_Forall (fun _ conns => websocket ∉ conns) (active_connections m).

(** A websocket in some connection set of the registry. *)
Definition registered (m : ConnectionManager) (websocket : WebSocket) : Prop :=
  ∃ u conns, active_connections m !! u = Some conns ∧ websocket ∈ conns.

(** No registered websocket has a broken transport. *)
Definition healthy (n : Net) : Prop :=
  map_Forall (fun _ conns => set_Forall (fun ws => ws ∉ broken n) conns)
    (active_connections (manager n)).

(** [n'] is [n] with more messages [msg] handed out, all of them to
    websockets in [P]. *)
Definition sent_to (P : WebSocket → Prop) (msg : message) (n n' : Net) : Prop :=
  manager n' = manager n ∧ broken n' = broken n ∧
  ∃ new, delivered n' = (delivered n ++ new)%list ∧ Forall (fun d => P d.1 ∧ d.2 = msg) new.

End Server.

(** ** The database rows ([app/models]) and the state of the service *)

Module Models.

(** [class User]: the columns the leaderboard reads and writes. The
    rating is a float column that is only copied. *)
Record User : Type := {
  id : Z;
  username : string;
  total_score : Z;
  rating : Z;
  puzzles_solved : Z;
  win_streak : Z
}.

Inductive PuzzleCategory : Type :=
| LOGIC | MATH | PATTERN | WORD | CODING | CRYPTOGRAPHY.

(** A value inside a JSON object. *)
Inductive atom : Type :=
| ANumber (z : Z)
| AText (s : string).

#[global] Instance atom_eq_dec : EqDecision atom.
Proof. solve_decision. Defined.

(** A submitted or stored solution (a JSON column): a number, a text,
    or an object. The request schema ([PuzzleAttemptCreate]) lets only
    objects through as submissions. *)
Inductive solution : Type :=
| Number (z : Z)
| Text (s : string)
| Dict (d : gmap string atom).

(** [class Puzzle]. The success rate is a float column; it is kept as
    the exact quotient, numerator and denominator. *)
Record Puzzle : Type := {
  puzzle_id : Z;
  category : PuzzleCategory;
  content_solution : solution;
  points : Z;
  times_solved : Z;
  success_rate : Z * Z
}.

(** [class PuzzleAttempt] *)
Record PuzzleAttempt : Type := {
  a_user_id : Z;
  a_puzzle_id : Z;
  a_solution_submitted : solution;
  a_is_correct : bool;
  a_time_taken : Z;
  a_points_earned : Z
}.

Record Tables : Type := {
  users : gmap Z User;
  puzzles : gmap Z Puzzle;
  attempts : list PuzzleAttempt
}.

End Models.

Import Models.

(** The state shared by the request handlers: the committed tables, a
    flag for a database outage (a commit then fails), the Redis keyspace
    and the websocket registry of the leaderboard module with its
    transport. *)
Record World : Type := {
  db : Tables;
  outage : bool;
  redis : Redis.t;
  net : Server.Net
}.

Definition set_db (d : Tables) (w : World) : World :=
  {| db := d; outage := outage w; redis := redis w; net := net w |}.
Definition set_redis (r : Redis.t) (w : World) : World :=
  {| db := db w; outage := outage w; redis := r; net := net w |}.
Definition set_net (n : Server.Net) (w : World) : World :=
  {| db := db w; outage := outage w; redis := redis w; net := n |}.

(** A call on the [CacheService(redis)] object of a handler. *)
Definition cache (name : string) (args : list pyval) : M World pyval :=
  zoom redis set_redis (CacheService.call name args).

(** ** The leaderboard endpoints ([app/api/v1/endpoints/leaderboard.py]) *)

Module Leaderboard.

(** [order_by(User.total_score.desc())]. SQL leaves the order of rows
    with equal keys to the database: [ranking] says what every answer
    satisfies, and [order_by_total_score_desc] is one such answer, which
    keeps rows of equal score in table order. *)
Definition descending (rows : list User) : Prop :=
  ∀ i j u v, (i <= j)%nat → rows !! i = Some u → rows !! j = Some v →
             total_score v <= total_score u.

Definition ranking (table rows : list User) : Prop :=
  rows ≡ₚ table ∧ descending rows.

Fixpoint insert_desc (u : User) (rows : list User) : list User :=
  match rows with
  | [] => [u]
  | v :: rows' =>
      if total_score v <? total_score u then u :: v :: rows'
      else v :: insert_desc u rows'
  end.

Definition order_by_total_score_desc (table : list User) : list User :=
  foldr insert_desc [] table.

(** [.offset(skip).limit(limit).all()] *)
Definition page (skip limit : nat) (rows : list User) : list User :=
  take limit (drop skip rows).

(** The loop [for rank, user in enumerate(users, start=skip + 1)]. *)
Definition leaderboard_entries (skip : nat) (users : list User) : list LeaderboardEntry :=
  imap (fun i user =>
          {| e_user_id := id user;
             e_username := username user;
             e_total_score := total_score user;
             e_rank := Z.of_nat (skip + 1 + i);
             e_rating := rating user;
             e_puzzles_solved := puzzles_solved user;
             e_win_streak := win_streak user |}) users.

(** How many rows of the table have a strictly greater score than
    [u], and how many have a score at least that of [u]. *)
Definition higher (table : list User) (u : User) : nat :=
  length (filter (fun v => total_score u < total_score v) table).

Definition at_least (table : list User) (u : User) : nat :=
  length (filter (fun v => total_score u <= total_score v) table).

(** The rows of the users table. *)
Definition user_rows (w : World) : list User := (map_to_list (users (db w))).*2.

Definition global_key (skip limit : nat) : string :=
  "global_leaderboard:" +:+ pretty skip +:+ ":" +:+ pretty limit.

(** The database part of [get_global_leaderboard]. *)
Definition compute_global (skip limit : nat) (w : World) : list LeaderboardEntry :=
  leaderboard_entries skip (page skip limit (order_by_total_score_desc (user_rows w))).

(** [async def get_global_leaderboard(skip, limit, db, redis)] *)
Definition get_global_leaderboard (skip limit : nat) : M World pyval :=
  let cache_key := global_key skip limit in
  let* cached_data := cache "get" [VStr cache_key] in
  if truthy cached_data then ret cached_data
  else
    let* leaderboard := gets (compute_global skip limit) in
    cache "set" [VStr cache_key; VEntries leaderboard; VInt 300] ;;
    ret (VEntries leaderboard).

(** The same handler between its two suspension points, for callers
    that run concurrently: a caller has not read the cache yet, or holds
    what the cache answered, or has returned, or has failed; for the
    last two, with or without having computed the page itself. *)
Inductive caller : Type :=
| Pending
| Read (cached_data : pyval)
| Returned (recomputed : bool) (payload : pyval)
| Failed (recomputed : bool) (e : exn).


Definition advance (skip limit : nat) (c : caller) : M World caller :=
  let cache_key := global_key skip limit in
  match c with
  | Pending =>
      let* cached_data := cache "get" [VStr cache_key] in
      ret (Read cached_data)
  | Read cached_data =>
      if truthy cached_data then ret (Returned false cached_data)
      else
        let* leaderboard := gets (compute_global skip limit) in
        cache "set" [VStr cache_key; VEntries leaderboard; VInt 300] ;;
        ret (Returned true (VEntries leaderboard))
  | _ => ret c
  end.



Definition recomputed (c : caller) : bool :=
  match c with
  | Returned true _ => true
  | Failed true _ => true
  | _ => false
  end.


(** [int(score)] on what the cache returned. *)
Definition py_int (v : pyval) : result Z :=
  match v with
  | VInt z => Ok z
  | VStr s => match parse_int s with Some z => Ok z | None => Raise ValueError end
  | _ => Raise TypeError
  end.

(** [async def get_user_leaderboard_data(user_id, redis) -> dict] *)
Definition get_user_leaderboard_data (user_id : Z) : M World pyval :=
  let* score := cache "get" [VStr ("user_score:" +:+ pretty user_id)] in
  let* rank := cache "get_sorted_set_rank" [VStr "leaderboard"; VStr (pretty user_id)] in
  let* score_value := (fun w => ((if truthy score then py_int score else Ok 0), w)) in
  let* rank_value :=
    (fun w => (match rank with
               | VNone => Ok None
               | VInt r => Ok (Some (r + 1))
               | _ => Raise TypeError
               end, w)) in
  ret (VUser user_id score_value rank_value).

(** A broadcast of the module's [manager]. *)
Definition manager_broadcast (msg : message) (channel : option string) : M World unit :=
  zoom net set_net (Server.broadcast msg channel).

(** The part of [update_leaderboard] under the comment
    [# Invalidate cached leaderboards]. *)
Definition invalidate (category : option string) : M World unit :=
  cache "delete" [VStr "global_leaderboard:*"] ;;
  match category with
  | Some c =>
      if Server.given category
      then cache "delete" [VStr ("category_leaderboard:" +:+ c +:+ ":*")] ;; ret tt
      else ret tt
  | None => ret tt
  end.

(** [async def update_leaderboard(user_id, points, category=None, redis=None)] *)
Definition update_leaderboard (user_id points : Z) (category : option string)
  : M World unit :=
  cache "increment" [VStr ("user_score:" +:+ pretty user_id); VInt points] ;;
  (match category with
   | Some c =>
       if Server.given category
       then cache "increment"
              [VStr ("user_category_score:" +:+ c +:+ ":" +:+ pretty user_id); VInt points] ;;
            ret tt
       else ret tt
   | None => ret tt
   end) ;;
  invalidate category ;;
  let* user_data := get_user_leaderboard_data user_id in
  manager_broadcast
    {| msg_type := "score_update"; msg_category := None; msg_data := user_data |}
    (Some "leaderboard") ;;
  match category with
  | Some c =>
      if Server.given category
      then manager_broadcast
             {| msg_type := "category_update"; msg_category := Some c;
                msg_data := user_data |}
             (Some ("leaderboard_category_" +:+ c))
      else ret tt
  | None => ret tt
  end.

(** Something is cached under the key of a page of the global
    leaderboard. *)
Definition cached (skip limit : nat) (w : World) : bool :=
  match Redis.lookup_live (global_key skip limit) (redis w) with
  | Some _ => true
  | None => false
  end.

End Leaderboard.

(** ** The puzzle endpoints ([app/api/v1/endpoints/puzzles.py]) *)

Module Puzzles.

(** [PuzzleValidator.validate_solution] ([app/services/ai_puzzle.py]).
    Numbers are integers here, on which the tolerance of the math
    check is equality; the subtraction of the math check raises on a
    text or an object. *)
Definition validate_solution (puzzle_type : PuzzleCategory) (submitted correct : solution)
  : result bool :=
  match puzzle_type with
  | CODING => Ok true
  | MATH =>
      match submitted, correct with
      | Number a, Number b => Ok (Z.abs (a - b) <? 1)
      | _, _ => Raise TypeError
      end
  | _ =>
      match submitted, correct with
      | Number a, Number b => Ok (a =? b)
      | Text a, Text b => Ok (String.eqb a b)
      | Dict a, Dict b => Ok (bool_decide (a = b))
      | _, _ => Ok false
      end
  end.

(** [async def update_leaderboard(user_id, points, redis)] *)
Definition update_leaderboard (user_id points : Z) : M World unit :=
  cache "increment" [VStr ("user_score:" +:+ pretty user_id); VInt points] ;;
  cache "add_to_sorted_set" [VStr "leaderboard"; VInt points; VStr (pretty user_id)] ;;
  ret tt.

(** The body of [PuzzleAttemptCreate]. *)
Record PuzzleAttemptCreate : Type := {
  solution_submitted : solution;
  time_taken : Z
}.

(** What a handler works on: the shared state, the tables as its
    database session sees them, and the tasks it has handed to
    [background_tasks]. *)
Record Request : Type := {
  world : World;
  session : Tables;
  background_tasks : list (M World unit)
}.

Definition set_session (t : Tables) (q : Request) : Request :=
  {| world := world q; session := t; background_tasks := background_tasks q |}.

Definition add_task (task : M World unit) : M Request unit :=
  modify (fun q => {| world := world q; session := session q;
                      background_tasks := background_tasks q ++ [task] |}).

(** [db.commit()]: the session's tables become the committed ones,
    unless the database is out. *)
Definition commit : M Request unit := fun q =>
  if outage (world q) then (Raise OperationalError, q)
  else (Ok tt, {| world := set_db (session q) (world q); session := session q;
                  background_tasks := background_tasks q |}).

Section SubmitAttempt.

(** [puzzle.attempts.count()]: the call on the collection that the
    object-relational mapper puts behind the relationship, given the
    attempts recorded for the puzzle before this one. *)
Variable attempts_count : list PuzzleAttempt -> result Z.

(** [async def submit_attempt(puzzle_id, attempt, background_tasks,
    current_user, db, redis)]; [current_user] is the row of the users
    table with the identifier that the token resolved to. *)
Definition submit_attempt (puzzle_id : Z) (attempt : PuzzleAttemptCreate)
    (current_user : Z) : M Request PuzzleAttempt := fun q =>
  match puzzles (session q) !! puzzle_id with
  | None => (Raise (HTTPException 404), q)
  | Some puzzle =>
      match validate_solution (category puzzle) (solution_submitted attempt)
              (content_solution puzzle) with
      | Raise e => (Raise e, q)
      | Ok is_correct =>
          let puzzle_attempt :=
            {| a_user_id := current_user;
               a_puzzle_id := puzzle_id;
               a_solution_submitted := solution_submitted attempt;
               a_is_correct := is_correct;
               a_time_taken := time_taken attempt;
               a_points_earned := if is_correct then points puzzle else 0 |} in
          let of_puzzle := filter (fun a => a_puzzle_id a = puzzle_id) (attempts (session q)) in
          let t1 := {| users := users (session q); puzzles := puzzles (session q);
                       attempts := attempts (session q) ++ [puzzle_attempt] |} in
          let bump (u : User) :=
            {| id := id u; username := username u;
               total_score := total_score u + points puzzle;
               rating := rating u;
               puzzles_solved := puzzles_solved u + 1;
               win_streak := win_streak u + 1 |} in
          let reset (u : User) :=
            {| id := id u; username := username u; total_score := total_score u;
               rating := rating u; puzzles_solved := puzzles_solved u;
               win_streak := 0 |} in
          let after_branch : M Request unit :=
            if is_correct then
              let solved (rate : Z * Z) :=
                {| puzzle_id := puzzle_id; category := category puzzle;
                   content_solution := content_solution puzzle;
                   points := points puzzle;
                   times_solved := times_solved puzzle + 1;
                   success_rate := rate |} in
              let t2 := {| users := alter bump current_user (users t1);
                           puzzles := <[ puzzle_id := solved (success_rate puzzle) ]> (puzzles t1);
                           attempts := attempts t1 |} in
              modify (set_session t2) ;;
              let* n := (fun q => (attempts_count of_puzzle, q)) in
              modify (set_session
                        {| users := users t2;
                           puzzles := <[ puzzle_id := solved ((times_solved puzzle + 1) * 100, n + 1) ]>
                                        (puzzles t2);
                           attempts := attempts t2 |}) ;;
              add_task (update_leaderboard current_user (points puzzle))
            else
              modify (set_session
                        {| users := alter reset current_user (users t1);
                           puzzles := puzzles t1; attempts := attempts t1 |}) in
          (after_branch ;; commit ;; ret puzzle_attempt) q
      end
  end.

(** The framework around the handler: a fresh session on the committed
    tables; when the handler returns, the response is sent and then
    the background tasks run, an exception of a task ending that task
    only; when the handler raises, the caller gets the failure, the
    session is dropped and its background tasks are never run. The
    answer is the handler's result and the number of tasks run. *)
Definition run_tasks (tasks : list (M World unit)) (w : World) : World :=
  foldl (fun w task => (task w).2) w tasks.

Definition serve_submit_attempt (puzzle_id : Z) (attempt : PuzzleAttemptCreate)
    (current_user : Z) (w : World) : result PuzzleAttempt * nat * World :=
  match submit_attempt puzzle_id attempt current_user
          {| world := w; session := db w; background_tasks := [] |} with
  | (Ok response, q) =>
      (Ok response, length (background_tasks q), run_tasks (background_tasks q) (world q))
  | (Raise e, q) => (Raise e, 0%nat, world q)
  end.

End SubmitAttempt.

(** A collection whose [count()] answers with its length. *)
Definition count_rows (l : list PuzzleAttempt) : result Z := Ok (Z.of_nat (length l)).

(** A collection that is a plain list: [count()] without an argument
    is a [TypeError]. *)
Definition count_of_list (l : list PuzzleAttempt) : result Z := Raise TypeError.

End Puzzles.

(** ** Sample states *)

Module Samples.

Import Server Puzzles.

(** Nothing stored, nobody connected. *)
Definition fresh : World :=
  {| db := {| users := ∅; puzzles := ∅; attempts := [] |};
     outage := false; redis := Redis.empty; net := Server.start |}.

Definition alice : User :=
  {| id := 1; username := "alice"; total_score := 100; rating := 1500;
     puzzles_solved := 1; win_streak := 1 |}.
Definition bob : User :=
  {| id := 2; username := "bob"; total_score := 100; rating := 1500;
     puzzles_solved := 1; win_streak := 0 |}.
Definition carol : User :=
  {| id := 3; username := "carol"; total_score := 250; rating := 1600;
     puzzles_solved := 2; win_streak := 2 |}.

(** A world with three users, two of them with the same score. *)
Definition league : World :=
  set_db {| users := {[ 1 := alice; 2 := bob; 3 := carol ]}; puzzles := ∅; attempts := [] |}
    fresh.

(** The same world with a text cached under the key of the first page
    of the global leaderboard, for five minutes. *)
Definition first_page : string := "[3, 1, 2]".

Definition league_cached : World :=
  (cache "set" [VStr "global_leaderboard:0:100"; VStr first_page; VInt 300] league).2.

Definition riddle : Puzzle :=
  {| puzzle_id := 10; category := LOGIC; content_solution := Text "42";
     points := 250; times_solved := 0; success_rate := (0, 1) |}.

(** The league with one puzzle, and the same with the database out. *)
Definition arena : World :=
  set_db {| users := users (db league); puzzles := {[ 10 := riddle ]}; attempts := [] |} league.

Definition arena_out : World :=
  {| db := db arena; outage := true; redis := redis arena; net := net arena |}.

Definition right_answer : PuzzleAttemptCreate :=
  {| solution_submitted := Text "42"; time_taken := 30 |}.

(** Two members: member 7 with websocket 1 on the leaderboard channel,
    member 8 with websocket 2 on no channel. *)
Definition two_members : Net :=
  run [Connect 1 7 (Some "leaderboard"); Connect 2 8 None] start.

Definition note : message :=
  {| msg_type := "score_update"; msg_category := None; msg_data := VUser 7 100 (Some 1) |}.

End Samples.

(** ** The websocket endpoints ([websocket_endpoint] of
    [app/websockets/server.py], [leaderboard_websocket] of
    [app/api/v1/endpoints/leaderboard.py]) *)

Module Sockets.

Import Server.

(** What [receive_text] and [json.loads] give for one turn of the
    receive loop: the client has gone ([WebSocketDisconnect]), the text
    is not JSON ([JSONDecodeError], a [ValueError]), or it is a JSON
    object, seen through the keys that the handlers read; [None] is an
    absent key. The type and the category are texts, the puzzle and the
    progress integers. JSON texts that are not objects are left out. *)
Record fields : Type := {
  f_type : option string;
  f_puzzle_id : option Z;
  f_progress : option Z;
  f_category : option string
}.

Inductive received : Type :=
| Gone
| NotJson
| Json (message : fields).

(** How a turn of a receive loop ends when it does not raise: the loop
    goes on, or the disconnect has been handled and the endpoint
    returns, or, in [websocket_endpoint], the turn has used the name
    [self], which the function does not have: no handler catches that
    [NameError], and the endpoint dies with it. *)
Inductive turn : Type :=
| Continue
| Left
| NoSelf.

(** How an endpoint ends: the client was turned away with a close code,
    the client left, the endpoint died, or it is still waiting for the
    next text. *)
Inductive ending : Type :=
| Rejected (code : Z)
| Finished
| Died
| Waiting.

(** A websocket of a member whose channel set holds the channel. *)
Definition subscriber (m : ConnectionManager) (channel : string) (websocket : WebSocket)
  : Prop :=
  ∃ u conns chans,
    active_connections m !! u = Some conns ∧ websocket ∈ conns ∧
    user_channels m !! u = Some chans ∧ channel ∈ chans.

(** [await websocket.close(code, reason)]: the transport is gone, any
    later send on the websocket raises. *)
Definition close (websocket : WebSocket) : M Net unit :=
  modify (fun n => {| manager := manager n; broken := {[ websocket ]} ∪ broken n;
                      delivered := delivered n |}).

(** *** [app/websockets/server.py] *)

(** What the functions of the module work on: the Redis keyspace and
    the module's own [manager = ConnectionManager()] with the transport
    under it. The [manager] of the leaderboard module is another
    object, the [net] of the world. *)
Record Hub : Type := {
  hub_redis : Redis.t;
  hub_net : Net
}.

Definition set_hub_redis (r : Redis.t) (h : Hub) : Hub :=
  {| hub_redis := r; hub_net := hub_net h |}.
Definition set_hub_net (n : Net) (h : Hub) : Hub :=
  {| hub_redis := hub_redis h; hub_net := n |}.

(** A call on the module's [manager] or on a websocket. *)
Definition on_manager {A} (c : M Net A) : M Hub A := zoom hub_net set_hub_net c.

(** A call on the [CacheService(redis)] object of the module's functions. *)
Definition hub_cache (name : string) (args : list pyval) : M Hub pyval :=
  zoom hub_redis set_hub_redis (CacheService.call name args).

Definition error_message : message :=
  {| msg_type := "error"; msg_category := None; msg_data := VStr "Invalid message format" |}.

Definition user_progress (user_id puzzle_id progress : Z) : message :=
  {| msg_type := "user_progress"; msg_category := None;
     msg_data := VPairs [("user_id", user_id); ("puzzle_id", puzzle_id); ("progress", progress)] |}.

(** The channel [f"puzzle_{message['puzzle_id']}"]. *)
Definition puzzle_channel (puzzle_id : Z) : string := "puzzle_" +:+ pretty puzzle_id.

(** One turn of the [while True] loop of [websocket_endpoint]. The
    branch of ["leaderboard_subscribe"] starts with
    [self.user_channels[user.id].add("leaderboard")] in a function that
    has no [self]. *)
Definition endpoint_turn (websocket : WebSocket) (user_id : Z) (data : received)
  : M Hub turn :=
  match data with
  | Gone => on_manager (disconnect websocket user_id) ;; ret Left
  | NotJson => on_manager (send_personal_message error_message user_id) ;; ret Continue
  | Json m =>
      match f_type m with
      | None => raise KeyError
      | Some type =>
          if String.eqb type "leaderboard_subscribe" then ret NoSelf
          else if String.eqb type "puzzle_progress" then
            match f_puzzle_id m, f_progress m with
            | Some puzzle_id, Some progress =>
                on_manager (broadcast (user_progress user_id puzzle_id progress)
                              (Some (puzzle_channel puzzle_id))) ;;
                ret Continue
            | _, _ => raise KeyError
            end
          else ret Continue
      end
  end.

(** The receive loop on the texts that the client sends, in order. *)
Fixpoint endpoint_loop (websocket : WebSocket) (user_id : Z) (incoming : list received)
  : M Hub ending :=
  match incoming with
  | [] => ret Waiting
  | data :: rest =>
      let* t := endpoint_turn websocket user_id data in
      match t with
      | Continue => endpoint_loop websocket user_id rest
      | Left => ret Finished
      | NoSelf => ret Died
      end
  end.

Definition leaderboard_message (leaderboard : pyval) : message :=
  {| msg_type := "leaderboard_update"; msg_category := None; msg_data := leaderboard |}.

(** [async def send_leaderboard_update(redis)] *)
Definition send_leaderboard_update : M Hub unit :=
  let* leaderboard :=
    hub_cache "get_sorted_set_range" [VStr "leaderboard"; VInt 0; VInt 9; VInt 1] in
  on_manager (broadcast (leaderboard_message leaderboard) (Some "leaderboard")).

(** *** The websocket of [app/api/v1/endpoints/leaderboard.py] *)

(** A manager call or a websocket call of [leaderboard_websocket], on
    the registry of the leaderboard module. *)
Definition on_net {A} (c : M Net A) : M World A := zoom net set_net c.

(** The methods of [ConnectionManager]. *)
Definition manager_methods : list string :=
  [ "connect"; "disconnect"; "send_personal_message"; "broadcast" ].

(** [manager.name]: the attribute lookup that comes before the call. *)
Definition manager_attribute (name : string) : M World unit :=
  if bool_decide (name ∈ manager_methods) then ret tt else raise AttributeError.

Section Authenticated.

(** [get_current_user] of [app.core.security]: the identifier of the
    member that a token stands for, or an exception. *)
Variable get_current_user : string -> result Z.

(** [async def websocket_endpoint(websocket, channel, redis)] with the
    token of the query string; an exception of the loop leaves the
    endpoint. *)
Definition websocket_endpoint (websocket : WebSocket) (token : option string)
    (channel : option string) (incoming : list received) : M Hub ending :=
  match token with
  | Some t =>
      if given token then
        match get_current_user t with
        | Raise _ => on_manager (close websocket) ;; ret (Rejected 4002)
        | Ok user_id =>
            on_manager (connect websocket user_id channel) ;;
            endpoint_loop websocket user_id incoming
        end
      else on_manager (close websocket) ;; ret (Rejected 4001)
  | None => on_manager (close websocket) ;; ret (Rejected 4001)
  end.

(** [json.loads(data)] in [leaderboard.py], which does not import
    [json]: the name is bound nowhere in the module, whatever the
    text. *)
Definition json_loads (data : received) : M World fields := raise NameError.

(** One turn of the loop of [leaderboard_websocket]; the message of a
    category goes through [manager.subscribe_to_channel]. *)
Definition leaderboard_turn (websocket : WebSocket) (user_id : Z) (data : received)
  : M World turn :=
  match data with
  | Gone => on_net (disconnect websocket user_id) ;; ret Left
  | _ =>
      let* m := json_loads data in
      match f_type m with
      | None => raise KeyError
      | Some type =>
          if String.eqb type "subscribe_category" then
            match f_category m with
            | Some category =>
                if given (f_category m) then
                  manager_attribute "subscribe_to_channel" ;;
                  let* category_data :=
                    cache "get" [VStr ("category_leaderboard:" +:+ category +:+ ":0:100")] in
                  (if truthy category_data
                   then on_net (send_json {| msg_type := "category_data";
                                             msg_category := Some category;
                                             msg_data := category_data |} websocket)
                   else ret tt) ;;
                  ret Continue
                else ret Continue
            | None => ret Continue
            end
          else ret Continue
      end
  end.

Fixpoint leaderboard_loop (websocket : WebSocket) (user_id : Z) (incoming : list received)
  : M World ending :=
  match incoming with
  | [] => ret Waiting
  | data :: rest =>
      let* t := leaderboard_turn websocket user_id data in
      match t with
      | Continue => leaderboard_loop websocket user_id rest
      | Left => ret Finished
      | NoSelf => ret Died
      end
  end.

(** [async def leaderboard_websocket(websocket, token, db, redis)]:
    every exception of the body ends in [websocket.close(code=4000)]. *)
Definition leaderboard_websocket (websocket : WebSocket) (token : string)
    (incoming : list received) : M World ending := fun w =>
  let body : M World ending :=
    let* user_id := (fun w => (get_current_user token, w)) in
    on_net (connect websocket user_id (Some "leaderboard")) ;;
    let* initial_data := cache "get" [VStr "global_leaderboard:0:100"] in
    (if truthy initial_data
     then on_net (send_json {| msg_type := "initial_data"; msg_category := None;
                               msg_data := initial_data |} websocket)
     else ret tt) ;;
    leaderboard_loop websocket user_id incoming in
  match body w with
  | (Ok e, w') => (Ok e, w')
  | (Raise _, w') => (on_net (close websocket) ;; ret (Rejected 4000)) w'
  end.

End Authenticated.

End Sockets.

(** * Properties *)

(** ** The registry *)

Module ServerFacts.
Import Server.

Lemma sent_to_refl P msg n : sent_to P msg n n.
Proof.
  repeat split. exists []. split; [by rewrite app_nil_r | constructor].
Qed.

Lemma sent_to_trans P msg n1 n2 n3 :
  sent_to P msg n1 n2 → sent_to P msg n2 n3 → sent_to P msg n1 n3.
Proof.
  intros (Hm1 & Hb1 & new1 & Hd1 & Hf1) (Hm2 & Hb2 & new2 & Hd2 & Hf2).
  repeat split; [congruence | congruence |].
  exists (new1 ++ new2)%list. split.
  - rewrite Hd2, Hd1. by rewrite app_assoc.
  - by apply Forall_app.
Qed.

Lemma sent_to_weaken (P Q : WebSocket → Prop) msg n n' :
  (∀ ws, P ws → Q ws) → sent_to P msg n n' → sent_to Q msg n n'.
Proof.
  intros HPQ (Hm & Hb & new & Hd & Hf). repeat split; [done | done |].
  exists new. split; [done |].
  eapply Forall_impl; [exact Hf |]. intros d [? ?]. auto.
Qed.

Lemma send_json_sent msg ws n : sent_to (λ x, x = ws) msg n (send_json msg ws n).2.
Proof.
  unfold send_json. destruct (decide (ws ∈ broken n)); simpl.
  - apply sent_to_refl.
  - repeat split. exists [(ws, msg)]. split; [done |]. by repeat constructor.
Qed.

Lemma for_each_send_sent msg xs n :
  sent_to (λ x, x ∈ xs) msg n (for_each xs (send_json msg) n).2.
Proof.
  revert n. induction xs as [| x xs IH]; intros n; simpl.
  - apply sent_to_refl.
  - pose proof (send_json_sent msg x n) as Hx.
    unfold bind. destruct (send_json msg x n) as [[[] | e] n1] eqn:E; simpl in *.
    + eapply sent_to_trans.
      * eapply sent_to_weaken; [| exact Hx]. intros ws ->. set_solver.
      * eapply sent_to_weaken; [| apply IH]. intros ws ?. set_solver.
    + eapply sent_to_weaken; [| exact Hx]. intros ws ->. set_solver.
Qed.

Lemma send_personal_message_sent msg u n :
  sent_to (λ x, ∃ conns, active_connections (manager n) !! u = Some conns ∧ x ∈ conns)
    msg n (send_personal_message msg u n).2.
Proof.
  unfold send_personal_message.
  destruct (active_connections (manager n) !! u) as [conns |] eqn:E.
  - eapply sent_to_weaken; [| apply for_each_send_sent].
    intros ws Hws. exists conns. split; [done |]. by apply elem_of_elements.
  - apply sent_to_refl.
Qed.

Lemma broadcast_loop_sent msg channel (l : list (Z * gset string)) n :
  sent_to (registered (manager n)) msg n
    (for_each l
       (fun '(user_id, channels) =>
          if negb (given channel) || bool_decide (default EmptyString channel ∈ channels)
          then send_personal_message msg user_id
          else ret tt) n).2.
Proof.
  revert n. induction l as [| [u chans] l IH]; intros n; simpl.
  - apply sent_to_refl.
  - set (body := if negb (given channel) || bool_decide (default EmptyString channel ∈ chans)
                 then send_personal_message msg u else ret tt).
    assert (sent_to (registered (manager n)) msg n (body n).2) as Hb.
    { unfold body. destruct (negb (given channel) || _).
      - eapply sent_to_weaken; [| apply send_personal_message_sent].
        intros ws (conns & ? & ?). by exists u, conns.
      - apply sent_to_refl. }
    unfold bind. destruct (body n) as [[[] | e] n1] eqn:E; simpl in *; [| done].
    eapply sent_to_trans; [exact Hb |].
    destruct Hb as (Hm & _). rewrite <- Hm. apply IH.
Qed.

Lemma broadcast_sent msg channel n :
  sent_to (registered (manager n)) msg n (broadcast msg channel n).2.
Proof. apply broadcast_loop_sent. Qed.

(** Messages go to registered websockets only: the inbox of any other
    websocket is left as it was. *)
Lemma sent_to_inbox P msg n n' ws :
  sent_to P msg n n' → ¬ P ws → inbox ws n' = inbox ws n.
Proof.
  intros (_ & _ & new & Hd & Hf) Hws. unfold inbox. rewrite Hd, filter_app.
  replace (filter (λ d, d.1 = ws) new) with (@nil (WebSocket * message)).
  - by rewrite app_nil_r.
  - symmetry. clear Hd. induction Hf as [| d new [HP _] _ IH]; [done |].
    rewrite filter_cons. destruct (decide (d.1 = ws)) as [<- |]; [done | exact IH].
Qed.

Local Arguments given : simpl never.

Lemma add_nonempty (ws : WebSocket) (conns : gset WebSocket) : {[ ws ]} ∪ conns ≠ ∅.
Proof.
  intros Heq. apply (not_elem_of_empty (C := gset WebSocket) ws).
  rewrite <- Heq. apply elem_of_union. left. by apply elem_of_singleton.
Qed.

Lemma add_other (ws ws' : WebSocket) (conns : gset WebSocket) :
  ws' ≠ ws → ws ∉ conns → ws ∉ {[ ws' ]} ∪ conns.
Proof.
  intros Hne Hout. rewrite elem_of_union, elem_of_singleton. intros [-> | Hin]; auto.
Qed.

Lemma remove_gone (ws : WebSocket) (conns : gset WebSocket) : ws ∉ conns ∖ {[ ws ]}.
Proof. rewrite elem_of_difference, elem_of_singleton. intros [_ Hne]. by apply Hne. Qed.

Lemma remove_subseteq (ws : WebSocket) (conns : gset WebSocket) : conns ∖ {[ ws ]} ⊆ conns.
Proof. intros x. rewrite elem_of_difference. by intros [Hin _]. Qed.

Lemma insert_known_dom {A} (u : Z) (x : A) (m : gmap Z A) :
  is_Some (m !! u) → dom (<[ u := x ]> m) = dom m.
Proof.
  intros Hu. apply elem_of_dom in Hu. rewrite dom_insert_L.
  apply set_eq. intros k. rewrite elem_of_union, elem_of_singleton.
  split; [intros [-> | ?]; done | auto].
Qed.

Lemma consistent_init : consistent init.
Proof. split; [done |]. intros u conns. simpl. by rewrite lookup_empty. Qed.

Lemma consistent_insert m u conns chans :
  consistent m → conns ≠ ∅ →
  consistent {| active_connections := <[ u := conns ]> (active_connections m);
                user_channels := <[ u := chans ]> (user_channels m) |}.
Proof.
  intros [Hdom Hne] Hconns. split; simpl.
  - rewrite !dom_insert_L. by rewrite Hdom.
  - intros u' conns'. destruct (decide (u = u')) as [<- |].
    + rewrite lookup_insert_eq. by intros [= <-].
    + rewrite lookup_insert_ne by done. apply Hne.
Qed.

Lemma consistent_connect ws u channel n :
  consistent (manager n) → consistent (manager (connect ws u channel n).2).
Proof.
  intros Hc. pose proof Hc as [Hdom Hne].
  unfold connect, bind, accept, gets, modify, add_connection, add_channel, ret, with_manager.
  destruct (decide (ws ∈ broken n)); simpl; [done |].
  destruct (active_connections (manager n) !! u) as [conns |] eqn:E; simpl.
  - rewrite E. simpl.
    assert (is_Some (user_channels (manager n) !! u)) as [chans Hch].
    { apply elem_of_dom. rewrite <- Hdom. apply elem_of_dom. by eexists. }
    assert (∀ chans', consistent
              {| active_connections := <[u:={[ws]} ∪ conns]> (active_connections (manager n));
                 user_channels := <[u:=chans']> (user_channels (manager n)) |}) as Hins.
    { intros chans'. apply consistent_insert; [done | apply add_nonempty]. }
    assert (consistent (set_active (<[u:={[ws]} ∪ conns]> (active_connections (manager n))) (manager n))) as Hsame.
    { specialize (Hins chans). rewrite (insert_id _ _ _ Hch) in Hins. exact Hins. }
    destruct channel as [c |]; simpl; [| exact Hsame].
    destruct (given (Some c)); simpl; [| exact Hsame].
    rewrite Hch. simpl. apply Hins.
  - rewrite lookup_insert_eq. simpl.
    assert (∀ chans', consistent
              {| active_connections := <[u:={[ws]} ∪ ∅]> (<[u:=∅]> (active_connections (manager n)));
                 user_channels := <[u:=chans']> (<[u:=∅]> (user_channels (manager n))) |}) as Hins.
    { intros chans'. rewrite !insert_insert_eq.
      apply consistent_insert; [done | apply add_nonempty]. }
    assert (consistent
              {| active_connections := <[u:={[ws]} ∪ ∅]> (<[u:=∅]> (active_connections (manager n)));
                 user_channels := <[u:=∅]> (user_channels (manager n)) |}) as Hsame.
    { specialize (Hins ∅). by rewrite (insert_insert_eq (user_channels (manager n))) in Hins. }
    destruct channel as [c |]; simpl; [| exact Hsame].
    destruct (given (Some c)); simpl; [| exact Hsame].
    rewrite lookup_insert_eq. simpl. apply Hins.
Qed.

Lemma consistent_disconnect ws u n :
  consistent (manager n) → consistent (manager (disconnect ws u n).2).
Proof.
  intros Hc. pose proof Hc as [Hdom Hne]. unfold disconnect.
  destruct (active_connections (manager n) !! u) as [conns |] eqn:E; simpl; [| done].
  destruct (decide (ws ∈ conns)); simpl; [| done].
  destruct (decide (conns ∖ {[ws]} = ∅)) as [Hrest | Hrest].
  - assert (is_Some (user_channels (manager n) !! u)) as [chans Hch].
    { apply elem_of_dom. rewrite <- Hdom. apply elem_of_dom. by eexists. }
    rewrite Hch. simpl. split; simpl.
    + rewrite !dom_delete_L. by rewrite Hdom.
    + intros u' conns'. destruct (decide (u = u')) as [<- |].
      * by rewrite lookup_delete_eq.
      * rewrite lookup_delete_ne by done. apply Hne.
  - simpl. split; simpl.
    + rewrite insert_known_dom by (by eexists). exact Hdom.
    + intros u' conns'. destruct (decide (u = u')) as [<- |].
      * rewrite lookup_insert_eq. by intros [= <-].
      * rewrite lookup_insert_ne by done. apply Hne.
Qed.

(** *** Disconnecting *)

Lemma disconnect_unregisters ws u n n' :
  disconnect ws u n = (Ok tt, n') → owned_by (manager n) ws u →
  unregistered (manager n') ws ∧ delivered n' = delivered n ∧ broken n' = broken n.
Proof.
  unfold disconnect. intros Hd Hown.
  destruct (active_connections (manager n) !! u) as [conns |] eqn:E; [| done].
  destruct (decide (ws ∈ conns)); [| done].
  assert (∀ u' conns', u' ≠ u → active_connections (manager n) !! u' = Some conns' →
                       ws ∉ conns') as Hother.
  { intros u' conns' Hne Hl Hin. apply Hne. by eapply Hown. }
  destruct (decide (conns ∖ {[ws]} = ∅)).
  - destruct (user_channels (manager n) !! u); [| done].
    injection Hd as <-. simpl. split; [| done].
    intros u' conns'. simpl. destruct (decide (u = u')) as [<- |].
    + by rewrite lookup_delete_eq.
    + rewrite lookup_delete_ne by done. intros. by eapply Hother.
  - injection Hd as <-. simpl. split; [| done].
    intros u' conns'. simpl. destruct (decide (u = u')) as [<- |].
    + rewrite lookup_insert_eq. intros [= <-]. apply remove_gone.
    + rewrite lookup_insert_ne by done. intros. by eapply Hother.
Qed.

Lemma disconnect_shrinks ws u n u' conns' :
  active_connections (manager (disconnect ws u n).2) !! u' = Some conns' →
  ∃ conns, active_connections (manager n) !! u' = Some conns ∧ conns' ⊆ conns.
Proof.
  unfold disconnect.
  destruct (active_connections (manager n) !! u) as [conns |] eqn:E; simpl; [| by eauto].
  destruct (decide (ws ∈ conns)); simpl; [| by eauto].
  assert (active_connections (manager n) !! u' = Some conns' →
          ∃ conns0, active_connections (manager n) !! u' = Some conns0 ∧ conns' ⊆ conns0)
    as Hsame by eauto.
  destruct (decide (conns ∖ {[ws]} = ∅)).
  - destruct (user_channels (manager n) !! u); simpl;
      (destruct (decide (u = u')) as [<- |];
       [by rewrite lookup_delete_eq | by rewrite lookup_delete_ne]).
  - simpl. destruct (decide (u = u')) as [<- |].
    + rewrite lookup_insert_eq. intros [= <-]. exists conns.
      split; [done | apply remove_subseteq].
    + by rewrite lookup_insert_ne.
Qed.

Lemma disconnect_log ws u n :
  delivered (disconnect ws u n).2 = delivered n.
Proof.
  unfold disconnect.
  destruct (active_connections (manager n) !! u) as [conns |]; simpl; [| done].
  destruct (decide (ws ∈ conns)); simpl; [| done].
  destruct (decide (conns ∖ {[ws]} = ∅)); simpl; [| done].
  by destruct (user_channels (manager n) !! u).
Qed.

(** *** Connecting *)

Lemma connect_active ws u channel n :
  delivered (connect ws u channel n).2 = delivered n ∧
  (active_connections (manager (connect ws u channel n).2) = active_connections (manager n) ∨
   active_connections (manager (connect ws u channel n).2)
   = <[ u := {[ ws ]} ∪ default ∅ (active_connections (manager n) !! u) ]>
       (active_connections (manager n))).
Proof.
  unfold connect, bind, accept, gets, modify, add_connection, add_channel, ret, with_manager.
  destruct (decide (ws ∈ broken n)); simpl; [by auto |].
  destruct (active_connections (manager n) !! u) as [conns |] eqn:E; simpl.
  - rewrite E. simpl.
    destruct channel as [c |]; simpl; [| by auto].
    destruct (given (Some c)); simpl; [| by auto].
    destruct (user_channels (manager n) !! u); simpl; by auto.
  - rewrite lookup_insert_eq. simpl. rewrite insert_insert_eq.
    destruct channel as [c |]; simpl; [| by auto].
    destruct (given (Some c)); simpl; [| by auto].
    rewrite lookup_insert_eq. simpl. by auto.
Qed.

Lemma connect_keeps_unregistered ws ws' u channel n :
  ws' ≠ ws → unregistered (manager n) ws →
  unregistered (manager (connect ws' u channel n).2) ws.
Proof.
  intros Hne Hun. unfold unregistered.
  destruct (connect_active ws' u channel n) as [_ [-> | ->]]; [done |].
  intros u' conns'. destruct (decide (u = u')) as [<- |].
  - rewrite lookup_insert_eq. intros [= <-].
    destruct (active_connections (manager n) !! u) as [conns |] eqn:E; simpl.
    + apply add_other; [done |]. exact (Hun u conns E).
    + apply add_other; [done |]. apply not_elem_of_empty.
  - rewrite lookup_insert_ne by done. apply Hun.
Qed.

(** *** Events after a disconnect *)

Lemma unregistered_not_registered m ws : unregistered m ws → ¬ registered m ws.
Proof. intros Hun (u & conns & Hl & Hin). by eapply Hun. Qed.

Lemma step_unregistered ws e n :
  connects ws e = false → unregistered (manager n) ws →
  unregistered (manager (step e n)) ws ∧ inbox ws (step e n) = inbox ws n.
Proof.
  intros He Hun. destruct e as [ws' u c | ws' u | msg u | msg c]; simpl in *.
  - split.
    + apply connect_keeps_unregistered; [| done].
      intros ->. by rewrite bool_decide_eq_true_2 in He.
    + unfold inbox. by destruct (connect_active ws' u c n) as [-> _].
  - split.
    + intros u' conns' Hl Hin.
      destruct (disconnect_shrinks _ _ _ _ _ Hl) as (conns & Hl0 & Hsub).
      eapply Hun; [exact Hl0 |]. set_solver.
    + unfold inbox. by rewrite disconnect_log.
  - pose proof (send_personal_message_sent msg u n) as Hs. split.
    + destruct Hs as (-> & _). done.
    + eapply sent_to_inbox; [exact Hs |]. intros (conns & Hl & Hin). by eapply Hun.
  - pose proof (broadcast_sent msg c n) as Hs. split.
    + destruct Hs as (-> & _). done.
    + eapply sent_to_inbox; [exact Hs |]. by apply unregistered_not_registered.
Qed.

Lemma run_unregistered ws es n :
  forallb (fun e => negb (connects ws e)) es = true → unregistered (manager n) ws →
  inbox ws (run es n) = inbox ws n.
Proof.
  revert n. induction es as [| e es IH]; intros n Hes Hun; [done |].
  simpl in Hes. apply andb_prop in Hes as [He Hes]. apply negb_true_iff in He.
  destruct (step_unregistered ws e n He Hun) as [Hun' Hin].
  change (run (e :: es) n) with (run es (step e n)).
  rewrite (IH _ Hes Hun'). exact Hin.
Qed.

Lemma recipients_registered channel n ws :
  ws ∈ recipients channel n → registered (manager n) ws.
Proof.
  unfold recipients. intros Hin.
  match type of Hin with
  | context [broadcast ?p ?c ?n0] => pose proof (broadcast_sent p c n0) as Hs
  end.
  destruct Hs as (_ & _ & new & Hd & Hf). rewrite Hd in Hin. simpl in *.
  apply list_elem_of_fmap in Hin as ([ws' m] & -> & Hin).
  rewrite Forall_forall in Hf. by destruct (Hf _ Hin) as [? _].
Qed.

(** *** Broadcasts when no registered transport is broken *)

Lemma for_each_send_healthy msg xs n :
  (∀ x, x ∈ xs → x ∉ broken n) →
  for_each xs (send_json msg) n
  = (Ok tt, {| manager := manager n; broken := broken n;
               delivered := (delivered n ++ ((fun x => (x, msg)) <$> xs))%list |}).
Proof.
  revert n. induction xs as [| x xs IH]; intros n Hh; simpl.
  - unfold ret. rewrite app_nil_r. by destruct n.
  - unfold bind, send_json. rewrite decide_False by (apply Hh; set_solver).
    rewrite IH; simpl.
    + by rewrite <- app_assoc.
    + intros y Hy. apply Hh. set_solver.
Qed.

Lemma send_personal_message_healthy msg u conns n :
  healthy n → active_connections (manager n) !! u = Some conns →
  (send_personal_message msg u n).1 = Ok tt ∧
  ∀ ws, ws ∈ conns → (ws, msg) ∈ delivered (send_personal_message msg u n).2.
Proof.
  intros Hh Hl. unfold send_personal_message. rewrite Hl.
  rewrite for_each_send_healthy.
  - simpl. split; [done |]. intros ws Hws. apply elem_of_app. right.
    apply list_elem_of_fmap. exists ws. split; [done |]. by apply elem_of_elements.
  - intros x Hx. eapply Hh; [exact Hl |]. by apply elem_of_elements.
Qed.

Lemma sent_to_mono P msg n n' d :
  sent_to P msg n n' → d ∈ delivered n → d ∈ delivered n'.
Proof. intros (_ & _ & new & -> & _) Hd. apply elem_of_app. by left. Qed.

Lemma sent_to_healthy P msg n n' : sent_to P msg n n' → healthy n → healthy n'.
Proof. intros (Hm & Hb & _) Hh. unfold healthy. rewrite Hm, Hb. exact Hh. Qed.

Lemma broadcast_loop_all msg channel (l : list (Z * gset string)) n :
  healthy n →
  let r := for_each l
             (fun '(user_id, channels) =>
                if negb (given channel) || bool_decide (default EmptyString channel ∈ channels)
                then send_personal_message msg user_id
                else ret tt) n in
  r.1 = Ok tt ∧
  ∀ u chans conns ws,
    (u, chans) ∈ l →
    negb (given channel) || bool_decide (default EmptyString channel ∈ chans) = true →
    active_connections (manager n) !! u = Some conns →
    ws ∈ conns → (ws, msg) ∈ delivered r.2.
Proof.
  revert n. induction l as [| [u chans] l IH]; intros n Hh; simpl.
  - split; [done |]. intros ? ? ? ? Hin. by apply elem_of_nil in Hin.
  - set (body := if negb (given channel) || bool_decide (default EmptyString channel ∈ chans)
                 then send_personal_message msg u else ret tt).
    assert (sent_to (registered (manager n)) msg n (body n).2) as Hs.
    { unfold body. destruct (negb (given channel) || _).
      - eapply sent_to_weaken; [| apply send_personal_message_sent].
        intros ws (conns & ? & ?). by exists u, conns.
      - apply sent_to_refl. }
    assert ((body n).1 = Ok tt) as Hok1.
    { unfold body. destruct (negb (given channel) || _); [| done].
      destruct (active_connections (manager n) !! u) as [conns |] eqn:El.
      - by destruct (send_personal_message_healthy msg u conns n Hh El).
      - unfold send_personal_message. by rewrite El. }
    unfold bind. destruct (body n) as [[[] | e] n1] eqn:E; simpl in *; [| done].
    destruct (IH n1 (sent_to_healthy _ _ _ _ Hs Hh)) as [Hok Hall].
    split; [exact Hok |].
    intros u' chans' conns ws Hin Hsub Hl Hws.
    apply elem_of_cons in Hin as [[= -> ->] | Hin].
    + destruct (send_personal_message_healthy msg u conns n Hh Hl) as [_ Hd].
      unfold body in E. rewrite Hsub in E. rewrite E in Hd. simpl in Hd.
      eapply sent_to_mono; [eapply broadcast_loop_sent | by apply Hd].
    + eapply Hall; [exact Hin | exact Hsub | | exact Hws].
      destruct Hs as (-> & _). exact Hl.
Qed.

Lemma broadcast_reaches msg channel n u chans conns ws :
  healthy n →
  user_channels (manager n) !! u = Some chans →
  negb (given channel) || bool_decide (default EmptyString channel ∈ chans) = true →
  active_connections (manager n) !! u = Some conns → ws ∈ conns →
  (broadcast msg channel n).1 = Ok tt ∧ (ws, msg) ∈ delivered (broadcast msg channel n).2.
Proof.
  intros Hh Hch Hsub Hl Hws.
  destruct (broadcast_loop_all msg channel (map_to_list (user_channels (manager n))) n Hh)
    as [Hok Hall].
  split; [exact Hok |].
  eapply Hall; [| exact Hsub | exact Hl | exact Hws].
  by apply elem_of_map_to_list.
Qed.

Lemma recipients_reaches channel n u chans conns ws :
  healthy n →
  user_channels (manager n) !! u = Some chans →
  negb (given channel) || bool_decide (default EmptyString channel ∈ chans) = true →
  active_connections (manager n) !! u = Some conns → ws ∈ conns →
  ws ∈ recipients channel n.
Proof.
  intros Hh Hch Hsub Hl Hws. unfold recipients.
  match goal with
  | |- context [broadcast ?p ?c ?n0] =>
      destruct (broadcast_reaches p c n0 u chans conns ws) as [_ Hin]; try done
  end.
  apply list_elem_of_fmap. by eexists (_, _).
Qed.

(** Every state that events lead to from the empty registry is
    consistent. *)
Lemma consistent_step e n : consistent (manager n) → consistent (manager (step e n)).
Proof.
  intros Hc. destruct e as [ws u c | ws u | msg u | msg c]; simpl.
  - by apply consistent_connect.
  - by apply consistent_disconnect.
  - by destruct (send_personal_message_sent msg u n) as (-> & _).
  - by destruct (broadcast_sent msg c n) as (-> & _).
Qed.

Lemma consistent_run es : consistent (manager (run es start)).
Proof.
  unfold run. generalize consistent_init. change init with (manager start).
  generalize start. induction es as [| e es IH]; intros n Hc; simpl; [done |].
  apply IH. by apply consistent_step.
Qed.

End ServerFacts.

(** ** The cache wrapper and the update functions *)

Module CacheFacts.
Import Samples.

Lemma set_redis_same w : set_redis (redis w) w = w.
Proof. by destruct w. Qed.

(** [cache.increment(key, points)]: one argument too many. *)
Lemma increment_with_points key points w :
  cache "increment" [VStr key; VInt points] w = (Raise TypeError, w).
Proof. unfold cache, zoom. simpl. by rewrite set_redis_same. Qed.

(** [cache.get_sorted_set_rank(...)]: no such method. *)
Lemma get_sorted_set_rank_missing args w :
  cache "get_sorted_set_rank" args w = (Raise AttributeError, w).
Proof. unfold cache, zoom. simpl. by rewrite set_redis_same. Qed.

Lemma puzzles_update_raises user_id points w :
  Puzzles.update_leaderboard user_id points w = (Raise TypeError, w).
Proof.
  unfold Puzzles.update_leaderboard, bind. by rewrite increment_with_points.
Qed.

Lemma leaderboard_update_raises user_id points category w :
  Leaderboard.update_leaderboard user_id points category w = (Raise TypeError, w).
Proof.
  unfold Leaderboard.update_leaderboard, bind. by rewrite increment_with_points.
Qed.

Lemma cache_get_ok key w :
  (∃ v, cache "get" [VStr key] w = (Ok v, w)) ∨
  cache "get" [VStr key] w = (Raise ResponseError, w).
Proof.
  destruct w as [d o r n].
  change (cache "get" [VStr key]) with (zoom redis set_redis (Redis.get key)).
  unfold zoom, Redis.get. simpl.
  destruct (Redis.lookup_live key r) as [[v e | m] |]; simpl; eauto.
Qed.

(** *** Keys of cached pages against the keys that are deleted *)

Lemma global_key_not_pattern skip limit :
  Leaderboard.global_key skip limit ≠ "global_leaderboard:*".
Proof.
  unfold Leaderboard.global_key.
  generalize (pretty skip) (pretty limit). intros a b.
  change "global_leaderboard:*" with ("global_leaderboard:" +:+ "*").
  intros H. apply (inj (String.app _)) in H.
  destruct a as [| x a]; simpl in H; [discriminate H |].
  injection H as _ H. destruct a; discriminate H.
Qed.

Lemma global_key_not_category skip limit c :
  Leaderboard.global_key skip limit ≠ "category_leaderboard:" +:+ c +:+ ":*".
Proof. unfold Leaderboard.global_key. simpl. discriminate. Qed.

Lemma lookup_live_delete_ne k k' r :
  k ≠ k' → Redis.lookup_live k (Redis.with_keys (delete k') r) = Redis.lookup_live k r.
Proof.
  intros Hne. unfold Redis.lookup_live, Redis.with_keys. simpl.
  by rewrite lookup_delete_ne.
Qed.

Lemma cache_delete k w :
  cache "delete" [VStr k] w
  = (Ok VNone, set_redis (Redis.with_keys (delete k) (redis w)) w).
Proof. reflexivity. Qed.

Lemma cached_after_invalidate skip limit category w :
  Leaderboard.cached skip limit (Leaderboard.invalidate category w).2
  = Leaderboard.cached skip limit w.
Proof.
  pose proof (global_key_not_pattern skip limit) as Hp.
  unfold Leaderboard.invalidate, bind. rewrite cache_delete.
  destruct category as [c |]; [destruct (Server.given (Some c)) |];
    rewrite ?cache_delete; unfold ret, Leaderboard.cached; simpl;
    rewrite ?lookup_live_delete_ne; auto using global_key_not_category.
Qed.

(** ZADD twice for a member leaves the second score. *)
Lemma zadd_replaces k member d1 d2 r :
  Redis.lookup_live k r = None →
  Redis.zscore k member
    ((CacheService.add_to_sorted_set [VStr k; VInt d1; VStr member] ;;
      CacheService.add_to_sorted_set [VStr k; VInt d2; VStr member]) r).2
  = Some d2.
Proof.
  intros Hk. unfold bind, CacheService.add_to_sorted_set, bind, ret, Redis.zadd.
  rewrite Hk. unfold Redis.zscore, Redis.lookup_live, Redis.with_keys. simpl.
  rewrite lookup_insert_eq. simpl. rewrite lookup_insert_eq.
  by rewrite lookup_insert_eq.
Qed.

End CacheFacts.

(** ** The order of the leaderboard *)

Module RankingFacts.
Import Leaderboard.

(** *** The model's ORDER BY is one of the answers of the database *)

Lemma insert_desc_perm u rows : insert_desc u rows ≡ₚ u :: rows.
Proof.
  induction rows as [| v rows IH]; simpl; [done |].
  destruct (total_score v <? total_score u); [done |].
  rewrite IH. apply perm_swap.
Qed.

Lemma descending_cons u rows :
  descending rows → (∀ v, v ∈ rows → total_score v <= total_score u) →
  descending (u :: rows).
Proof.
  intros Hd Hu i j a b Hij Hi Hj.
  destruct i as [| i], j as [| j]; simpl in *.
  - injection Hi as <-. injection Hj as <-. lia.
  - injection Hi as <-. apply Hu. by eapply list_elem_of_lookup_2.
  - lia.
  - eapply (Hd i j); [lia | done | done].
Qed.

Lemma descending_tail u rows : descending (u :: rows) → descending rows.
Proof. intros Hd i j a b Hij Hi Hj. apply (Hd (S i) (S j)); [lia | done | done]. Qed.

Lemma descending_head u rows v :
  descending (u :: rows) → v ∈ rows → total_score v <= total_score u.
Proof.
  intros Hd Hv. apply list_elem_of_lookup_1 in Hv as [j Hj].
  apply (Hd 0%nat (S j)); [lia | done | done].
Qed.

Lemma insert_desc_descending u rows : descending rows → descending (insert_desc u rows).
Proof.
  induction rows as [| v rows IH]; intros Hd; simpl.
  - apply descending_cons; [done |]. intros ? Hin. by apply elem_of_nil in Hin.
  - destruct (total_score v <? total_score u) eqn:E.
    + apply Z.ltb_lt in E. apply descending_cons; [done |].
      intros w Hw. apply elem_of_cons in Hw as [-> | Hw]; [lia |].
      pose proof (descending_head _ _ _ Hd Hw). lia.
    + apply Z.ltb_ge in E. apply descending_cons.
      * apply IH. by eapply descending_tail.
      * intros w Hw. rewrite insert_desc_perm in Hw.
        apply elem_of_cons in Hw as [-> | Hw]; [done |].
        by eapply descending_head.
Qed.

Lemma order_by_total_score_desc_ranking table :
  ranking table (order_by_total_score_desc table).
Proof.
  unfold ranking, order_by_total_score_desc.
  induction table as [| u table [IHp IHd]]; simpl.
  - split; [done |]. intros i j u v _ Hi. by rewrite lookup_nil in Hi.
  - split.
    + rewrite insert_desc_perm. by rewrite IHp.
    + by apply insert_desc_descending.
Qed.

(** *** Position against the counts of higher and equal scores *)

Lemma filter_none {A} (P : A → Prop) `{∀ x, Decision (P x)} (l : list A) :
  Forall (fun x => ¬ P x) l → filter P l = [].
Proof.
  induction 1 as [| x l Hx _ IH]; [done |]. by rewrite filter_cons_False.
Qed.

Lemma filter_all {A} (P : A → Prop) `{∀ x, Decision (P x)} (l : list A) :
  Forall P l → filter P l = l.
Proof.
  induction 1 as [| x l Hx _ IH]; [done |]. rewrite filter_cons_True by done.
  by rewrite IH.
Qed.

Lemma higher_le_position rows p u :
  descending rows → rows !! p = Some u → (higher rows u <= p)%nat.
Proof.
  intros Hd Hp. unfold higher.
  rewrite <- (take_drop p rows) at 1. rewrite filter_app, length_app.
  rewrite (filter_none _ (drop p rows)).
  - pose proof (length_filter (λ v, total_score u < total_score v) (take p rows)).
    rewrite length_take in *. simpl. lia.
  - apply Forall_forall. intros v Hv.
    apply list_elem_of_lookup_1 in Hv as [j Hj]. rewrite lookup_drop in Hj.
    pose proof (Hd p (p + j)%nat u v ltac:(lia) Hp Hj). lia.
Qed.

Lemma position_lt_at_least rows p u :
  descending rows → rows !! p = Some u → (p + 1 <= at_least rows u)%nat.
Proof.
  intros Hd Hp. unfold at_least.
  rewrite <- (take_drop (S p) rows) at 1. rewrite filter_app, length_app.
  rewrite (filter_all _ (take (S p) rows)).
  - rewrite length_take. apply lookup_lt_Some in Hp. lia.
  - apply Forall_forall. intros v Hv.
    apply list_elem_of_lookup_1 in Hv as [j Hj].
    apply lookup_take_Some in Hj as [Hj Hlt].
    apply (Hd j p v u); [lia | done | done].
Qed.

Lemma higher_perm table rows u : rows ≡ₚ table → higher rows u = higher table u.
Proof. intros Hp. unfold higher. by rewrite Hp. Qed.

Lemma at_least_perm table rows u : rows ≡ₚ table → at_least rows u = at_least table u.
Proof. intros Hp. unfold at_least. by rewrite Hp. Qed.

Lemma page_lookup skip limit rows i u :
  page skip limit rows !! i = Some u → rows !! (skip + i)%nat = Some u.
Proof.
  unfold page. intros H. apply lookup_take_Some in H as [H _].
  by rewrite lookup_drop in H.
Qed.

Lemma leaderboard_entries_lookup skip users i e :
  leaderboard_entries skip users !! i = Some e →
  ∃ u, users !! i = Some u ∧ e_user_id e = id u ∧ e_total_score e = total_score u ∧
       e_rank e = Z.of_nat (skip + i) + 1.
Proof.
  unfold leaderboard_entries. rewrite list_lookup_imap.
  destruct (users !! i) as [u |]; simpl; [| done].
  intros [= <-]. exists u. simpl. repeat split; lia.
Qed.

End RankingFacts.

(** ** Concurrent readers of a page *)

Module FlightFacts.
Import Leaderboard.


(** The client refuses the page: a list is not a value that it can
    send. *)
Lemma cache_set_page skip limit P w :
  cache "set" [VStr (global_key skip limit); VEntries P; VInt 300] w = (Raise DataError, w).
Proof. by destruct w. Qed.












End FlightFacts.

(** * The claims of the specification *)

Module RegistryClaims.
Import Server ServerFacts Samples.

(** C5. Once [disconnect] has returned for a websocket that was
    registered under that member only, the websocket is in no
    connection set, no broadcast on any channel reaches it, and whatever
    events follow that do not connect it again (broadcasts, personal
    messages, other connects and disconnects) add nothing to the
    messages it has been handed. *)
Theorem disconnect_ends_delivery n ws u n' es :
  disconnect ws u n = (Ok tt, n') →
  owned_by (manager n) ws u →
  forallb (fun e => negb (connects ws e)) es = true →
  unregistered (manager n') ws ∧
  (∀ channel, ws ∉ recipients channel n') ∧
  inbox ws (run es n') = inbox ws n.
Proof.
  intros Hd Hown Hes.
  destruct (disconnect_unregisters ws u n n' Hd Hown) as (Hun & Hlog & _).
  split; [exact Hun |]. split.
  - intros channel Hin. apply recipients_registered in Hin.
    by apply (unregistered_not_registered _ _ Hun).
  - rewrite (run_unregistered ws es n' Hes Hun). unfold inbox. by rewrite Hlog.
Qed.

Lemma disconnect_ends_delivery_witness :
  let n' := (disconnect 1 7 two_members).2 in
  let es := [Broadcast note None; Broadcast note (Some "leaderboard");
             Connect 3 7 (Some "leaderboard"); Personal note 7; Broadcast note None] in
  unregistered (manager n') 1 ∧
  (∀ channel, 1%positive ∉ recipients channel n') ∧
  inbox 1 (run es n') = inbox 1 two_members.
Proof.
  apply (disconnect_ends_delivery two_members 1 7).
  - vm_compute. reflexivity.
  - unfold owned_by. apply (bool_decide_unpack _). vm_compute. exact I.
  - vm_compute. reflexivity.
Defined.

(** C9. [connect] and [disconnect] keep the registry consistent: the
    two dictionaries have the same keys and no member is kept with an
    empty set of connections, whether the call returns or raises. *)
Theorem registry_stays_consistent n ws u channel :
  consistent (manager n) →
  consistent (manager (connect ws u channel n).2) ∧
  consistent (manager (disconnect ws u n).2).
Proof.
  intros Hc. split; [by apply consistent_connect | by apply consistent_disconnect].
Qed.

Lemma registry_stays_consistent_witness :
  consistent (manager (connect 1 7 (Some "leaderboard_category_math") two_members).2) ∧
  consistent (manager (disconnect 1 7 two_members).2).
Proof.
  apply (registry_stays_consistent two_members 1 7 (Some "leaderboard_category_math")).
  unfold consistent. apply (bool_decide_unpack _). vm_compute. exact I.
Defined.

(** C10, as the claim states it: a broadcast without a channel would
    reach every connected member. With the transport of websocket 1
    broken, the send to member 7 raises and ends the loop: member 8,
    connected on a transport that works, gets nothing. *)
Lemma broken_transport_starves_the_others :
  ¬ (∀ n msg u conns ws,
       active_connections (manager n) !! u = Some conns → ws ∈ conns → ws ∉ broken n →
       (ws, msg) ∈ delivered (broadcast msg None n).2).
Proof.
  intros Hclaim.
  specialize (Hclaim {| manager := manager two_members; broken := {[ 1%positive ]};
                        delivered := [] |} note 8 {[ 2%positive ]} 2%positive).
  assert ((2%positive, note) ∈ @nil (WebSocket * message)) as Hin.
  { apply Hclaim.
    - vm_compute. reflexivity.
    - by apply elem_of_singleton.
    - apply (bool_decide_unpack _). vm_compute. exact I. }
  by apply elem_of_nil in Hin.
Qed.

(** C10, amended. When the registry is consistent and no registered
    transport is broken, a broadcast without a channel returns normally
    and hands the message to every connection of every connected
    member, whatever channels the member has; and a personal message to
    a member without connections returns normally and changes
    nothing. *)
Theorem broadcast_without_channel_reaches_all n msg channel :
  given channel = false →
  consistent (manager n) →
  healthy n →
  (broadcast msg channel n).1 = Ok tt ∧
  (∀ u conns ws, active_connections (manager n) !! u = Some conns → ws ∈ conns →
                 (ws, msg) ∈ delivered (broadcast msg channel n).2) ∧
  (∀ u, active_connections (manager n) !! u = None →
        send_personal_message msg u n = (Ok tt, n)).
Proof.
  intros Hg [Hdom _] Hh. split; [| split].
  - by destruct (broadcast_loop_all msg channel
                   (map_to_list (user_channels (manager n))) n Hh).
  - intros u conns ws Hl Hws.
    assert (is_Some (user_channels (manager n) !! u)) as [chans Hch].
    { apply elem_of_dom. rewrite <- Hdom. apply elem_of_dom. by eexists. }
    eapply broadcast_reaches; [exact Hh | exact Hch | | exact Hl | exact Hws].
    by rewrite Hg.
  - intros u Hl. unfold send_personal_message. by rewrite Hl.
Qed.

Lemma broadcast_without_channel_reaches_all_witness :
  (broadcast note None two_members).1 = Ok tt ∧
  (∀ u conns ws, active_connections (manager two_members) !! u = Some conns → ws ∈ conns →
                 (ws, note) ∈ delivered (broadcast note None two_members).2) ∧
  (∀ u, active_connections (manager two_members) !! u = None →
        send_personal_message note u two_members = (Ok tt, two_members)).
Proof.
  apply (broadcast_without_channel_reaches_all two_members note None).
  - reflexivity.
  - unfold consistent. apply (bool_decide_unpack _). vm_compute. exact I.
  - unfold healthy. apply (bool_decide_unpack _). vm_compute. exact I.
Defined.

(** C7, as the claim states it: connecting (and subscribing) one
    websocket would leave what every other websocket receives
    unchanged. It does not: the second connection of member 7 brings its
    channel to the first one. *)
Lemma subscriptions_are_not_per_connection :
  ¬ (∀ n ws other u channel,
       other ≠ ws →
       other ∈ recipients (Some channel) (connect ws u (Some channel) n).2 →
       other ∈ recipients (Some channel) n).
Proof.
  intros Hclaim.
  specialize (Hclaim (run [Connect 1 7 None] start) 2%positive 1%positive 7
                "leaderboard_category_math").
  assert (1%positive ∈ @nil WebSocket) as Hin.
  { apply Hclaim; [done |]. vm_compute. set_solver. }
  by apply elem_of_nil in Hin.
Qed.

(** C7, amended. Channels are kept per member: when [connect] returns
    for a websocket with a channel, the channel is in the member's one
    channel set, and (no registered transport being broken) a broadcast
    on that channel reaches every connection of the member, the earlier
    ones included. *)
Theorem subscription_is_per_member n ws u c n' :
  connect ws u (Some c) n = (Ok tt, n') →
  given (Some c) = true →
  ∃ conns chans,
    active_connections (manager n') !! u = Some conns ∧
    conns = {[ ws ]} ∪ default ∅ (active_connections (manager n) !! u) ∧
    user_channels (manager n') !! u = Some chans ∧ c ∈ chans ∧
    (healthy n' → ∀ ws', ws' ∈ conns → ws' ∈ recipients (Some c) n').
Proof.
  intros Hc Hg.
  assert (∃ conns chans,
            active_connections (manager n') !! u = Some conns ∧
            conns = {[ ws ]} ∪ default ∅ (active_connections (manager n) !! u) ∧
            user_channels (manager n') !! u = Some chans ∧ c ∈ chans)
    as (conns & chans & Hl & Hconns & Hch & Hin).
  { revert Hc.
    unfold connect, bind, accept, gets, modify, add_connection, add_channel, ret, with_manager.
    rewrite Hg.
    destruct (decide (ws ∈ broken n)); simpl; [done |].
    destruct (active_connections (manager n) !! u) as [conns |] eqn:E; simpl.
    - rewrite E. simpl.
      destruct (user_channels (manager n) !! u) as [chans |]; simpl; [| done].
      intros [= <-]. simpl. exists ({[ws]} ∪ conns), ({[c]} ∪ chans).
      rewrite !lookup_insert_eq. repeat split; set_solver.
    - rewrite lookup_insert_eq. simpl. rewrite lookup_insert_eq. simpl.
      intros [= <-]. simpl. exists ({[ws]} ∪ ∅), ({[c]} ∪ ∅).
      rewrite !lookup_insert_eq. repeat split; set_solver. }
  exists conns, chans. repeat split; try done.
  intros Hh ws' Hws'.
  eapply recipients_reaches; [exact Hh | exact Hch | | exact Hl | exact Hws'].
  rewrite Hg. simpl. by rewrite bool_decide_eq_true_2.
Qed.

Lemma subscription_is_per_member_witness :
  ∃ conns chans,
    active_connections (manager (run [Connect 1 7 None; Connect 2 7 (Some "math")] start)) !! 7
    = Some conns ∧
    conns = {[ 2%positive ]}
            ∪ default ∅ (active_connections (manager (run [Connect 1 7 None] start)) !! 7) ∧
    user_channels (manager (run [Connect 1 7 None; Connect 2 7 (Some "math")] start)) !! 7
    = Some chans ∧ "math" ∈ chans ∧
    (healthy (run [Connect 1 7 None; Connect 2 7 (Some "math")] start) →
     ∀ ws', ws' ∈ conns →
            ws' ∈ recipients (Some "math")
                    (run [Connect 1 7 None; Connect 2 7 (Some "math")] start)).
Proof.
  apply (subscription_is_per_member (run [Connect 1 7 None] start) 2 7 "math").
  - vm_compute. reflexivity.
  - reflexivity.
Defined.

End RegistryClaims.

Module UpdateClaims.
Import CacheFacts Samples.

(** C1 (the code does not do what the claim says). Both
    [update_leaderboard] functions call [cache.increment(key, points)]
    on a method that takes the key only: the call raises [TypeError] and
    nothing is recorded, so after the deltas 100 and 250 for member 7 the
    store is the one before them. Under the wrapper, INCR adds one
    whatever the points, and ZADD puts the last delta in place of the
    score: neither would keep the sum 350. *)
Theorem score_deltas_are_not_summed :
  (∀ user_id points w,
      Puzzles.update_leaderboard user_id points w = (Raise TypeError, w)) ∧
  (∀ user_id points category w,
      Leaderboard.update_leaderboard user_id points category w = (Raise TypeError, w)) ∧
  (Puzzles.update_leaderboard 7 250 (Puzzles.update_leaderboard 7 100 fresh).2).2 = fresh ∧
  cache "get" [VStr "user_score:7"]
    (Puzzles.update_leaderboard 7 250 (Puzzles.update_leaderboard 7 100 fresh).2).2
  = (Ok VNone, fresh) ∧
  ((CacheService.increment [VStr "user_score:7"] ;;
    CacheService.increment [VStr "user_score:7"] ;;
    CacheService.get [VStr "user_score:7"]) Redis.empty).1 = Ok (VStr "2") ∧
  (∀ d1 d2,
      Redis.zscore "leaderboard" "7"
        ((CacheService.add_to_sorted_set [VStr "leaderboard"; VInt d1; VStr "7"] ;;
          CacheService.add_to_sorted_set [VStr "leaderboard"; VInt d2; VStr "7"])
           Redis.empty).2
      = Some d2).
Proof.
  split; [exact puzzles_update_raises |].
  split; [exact leaderboard_update_raises |].
  rewrite !puzzles_update_raises. simpl.
  split; [reflexivity |]. split; [reflexivity |]. split; [reflexivity |].
  intros d1 d2. by apply zadd_replaces.
Qed.

(** C4 (the code does not do what the claim says). A cached page of
    the global leaderboard is still cached after
    [update_leaderboard]: the function raises before it gets to the
    invalidation, and the invalidation itself deletes the keys named
    ["global_leaderboard:*"] and ["category_leaderboard:<c>:*"], which
    no page is stored under. *)
Theorem cached_pages_survive_update w skip limit user_id points category :
  Leaderboard.cached skip limit w = true →
  Leaderboard.cached skip limit
    (Leaderboard.update_leaderboard user_id points category w).2 = true ∧
  Leaderboard.cached skip limit (Leaderboard.invalidate category w).2 = true.
Proof.
  intros Hc. rewrite leaderboard_update_raises, cached_after_invalidate. by split.
Qed.

Lemma cached_pages_survive_update_witness :
  Leaderboard.cached 0 100
    (Leaderboard.update_leaderboard 1 50 (Some "math") league_cached).2 = true ∧
  Leaderboard.cached 0 100 (Leaderboard.invalidate (Some "math") league_cached).2 = true.
Proof.
  apply (cached_pages_survive_update league_cached 0 100 1 50 (Some "math")).
  vm_compute. reflexivity.
Defined.

(** C8 (the code does not do what the claim says).
    [get_user_leaderboard_data] never returns: [CacheService] has no
    method [get_sorted_set_rank], so the rank query raises
    [AttributeError] (or the score read before it fails), also for a
    member without a score, as member 7 in the empty store. *)
Theorem rank_query_raises :
  (∀ user_id w, is_ok (Leaderboard.get_user_leaderboard_data user_id w).1 = false) ∧
  Leaderboard.get_user_leaderboard_data 7 fresh = (Raise AttributeError, fresh).
Proof.
  split; [| reflexivity].
  intros user_id w. unfold Leaderboard.get_user_leaderboard_data, bind.
  destruct (cache_get_ok ("user_score:" +:+ pretty user_id) w) as [[v ->] | ->]; [| done].
  by rewrite get_sorted_set_rank_missing.
Qed.

End UpdateClaims.

Module ReadClaims.
Import Leaderboard RankingFacts FlightFacts CacheFacts Samples.

(** C3, as the claim states it: the rank of every listed member would
    be the number of members with a strictly greater score, plus one.
    With two members on the same score it is not: bob is listed third
    behind carol and alice, with one member above his score. *)
Lemma rank_is_not_count_of_higher_scores :
  ¬ (∀ w skip limit e,
       e ∈ compute_global skip limit w →
       e_rank e
       = Z.of_nat (length (filter (fun v => e_total_score e < total_score v) (user_rows w))) + 1).
Proof.
  intros Hclaim.
  specialize (Hclaim league 0%nat 100%nat
                {| e_user_id := 2; e_username := "bob"; e_total_score := 100; e_rank := 3;
                   e_rating := 1500; e_puzzles_solved := 1; e_win_streak := 0 |}).
  assert (3 = 2) as Habs; [| discriminate Habs].
  apply Hclaim. vm_compute. do 2 apply list_elem_of_further. apply list_elem_of_here.
Qed.

(** C3, amended. For every row order that the database may answer
    with, the rank of a listed member is one-based and is the member's
    position in the whole descending order; it lies between the number
    of strictly greater scores plus one and the number of scores at
    least as great, and is the former when no other member has the
    same score. *)
Theorem rank_is_position_in_ranking table rows skip limit i e :
  ranking table rows →
  leaderboard_entries skip (page skip limit rows) !! i = Some e →
  ∃ u, rows !! (skip + i)%nat = Some u ∧
       e_user_id e = id u ∧ e_total_score e = total_score u ∧
       e_rank e = Z.of_nat (skip + i) + 1 ∧
       Z.of_nat (higher table u) + 1 <= e_rank e <= Z.of_nat (at_least table u) ∧
       (at_least table u = (higher table u + 1)%nat →
        e_rank e = Z.of_nat (higher table u) + 1).
Proof.
  intros [Hperm Hdesc] He.
  apply leaderboard_entries_lookup in He as (u & Hu & Hid & Hscore & Hrank).
  apply page_lookup in Hu. exists u.
  pose proof (higher_le_position rows _ u Hdesc Hu) as Hlo.
  pose proof (position_lt_at_least rows _ u Hdesc Hu) as Hhi.
  rewrite (higher_perm table rows u Hperm) in Hlo.
  rewrite (at_least_perm table rows u Hperm) in Hhi.
  repeat split; try done; lia.
Qed.

Lemma rank_is_position_in_ranking_witness :
  ∃ u, order_by_total_score_desc (user_rows league) !! (0 + 2)%nat = Some u ∧
       2 = id u ∧ 100 = total_score u ∧
       3 = Z.of_nat (0 + 2) + 1 ∧
       Z.of_nat (higher (user_rows league) u) + 1 <= 3
         <= Z.of_nat (at_least (user_rows league) u) ∧
       (at_least (user_rows league) u = (higher (user_rows league) u + 1)%nat →
        3 = Z.of_nat (higher (user_rows league) u) + 1).
Proof.
  apply (rank_is_position_in_ranking (user_rows league)
           (order_by_total_score_desc (user_rows league)) 0 100 2
           {| e_user_id := 2; e_username := "bob"; e_total_score := 100; e_rank := 3;
              e_rating := 1500; e_puzzles_solved := 1; e_win_streak := 0 |}).
  - apply order_by_total_score_desc_ranking.
  - vm_compute. reflexivity.
Defined.




(** Run alone, the two steps of a caller are [get_global_leaderboard]. *)
Lemma advance_twice_is_handler skip limit w :
  (let '(r, w') := (let* c := advance skip limit Pending in advance skip limit c) w in
   (match r with
    | Ok (Returned _ payload) => Ok payload
    | Ok _ => Raise TypeError
    | Raise e => Raise e
    end, w'))
  = get_global_leaderboard skip limit w.
Proof.
  unfold get_global_leaderboard, advance, bind.
  destruct (cache "get" [VStr (global_key skip limit)] w) as [[v | e] w1]; [| done].
  cbn -[cache global_key compute_global]. destruct (truthy v); [done |].
  cbn -[cache global_key compute_global]. by rewrite cache_set_page.
Qed.

End ReadClaims.

Module SubmitClaims.
Import Puzzles CacheFacts Samples.

(** C2. When the database refuses the commit, [submit_attempt] raises,
    the caller gets the failure, no background task is run (so the
    leaderboard update never starts), and the committed tables, the
    Redis keyspace, the registry and the log of delivered messages are
    what they were. *)
Theorem commit_failure_has_no_effect attempts_count puzzle_id attempt current_user w :
  outage w = true →
  let served := serve_submit_attempt attempts_count puzzle_id attempt current_user w in
  is_ok served.1.1 = false ∧ served.1.2 = 0%nat ∧ served.2 = w.
Proof.
  intros Hout served. subst served. unfold serve_submit_attempt, submit_attempt.
  cbn [world session background_tasks].
  destruct (puzzles (db w) !! puzzle_id) as [puzzle |]; [| done].
  destruct (validate_solution _ _ _) as [is_correct | e]; [| done].
  unfold commit, bind, modify, add_task, set_session.
  destruct is_correct; simpl.
  - destruct (attempts_count _) as [n | e]; simpl; [| done].
    by rewrite Hout.
  - by rewrite Hout.
Qed.

Lemma commit_failure_has_no_effect_witness :
  let served := serve_submit_attempt count_rows 10 right_answer 1 arena_out in
  is_ok served.1.1 = false ∧ served.1.2 = 0%nat ∧ served.2 = arena_out.
Proof.
  apply (commit_failure_has_no_effect count_rows 10 right_answer 1 arena_out).
  reflexivity.
Defined.

(** A request that gets as far as the commit fails with the refusal of
    the database. *)
Lemma refused_commit_raises attempts_count puzzle_id attempt current_user w puzzle correct :
  outage w = true →
  puzzles (db w) !! puzzle_id = Some puzzle →
  validate_solution (category puzzle) (solution_submitted attempt) (content_solution puzzle)
  = Ok correct →
  (correct = true →
   is_ok (attempts_count (filter (fun a => a_puzzle_id a = puzzle_id) (attempts (db w)))) = true) →
  (serve_submit_attempt attempts_count puzzle_id attempt current_user w).1.1
  = Raise OperationalError.
Proof.
  intros Hout Hp Hv Hcount. unfold serve_submit_attempt, submit_attempt.
  cbn [world session background_tasks]. rewrite Hp, Hv.
  unfold commit, bind, modify, add_task, set_session.
  destruct correct; simpl.
  - destruct (attempts_count _) as [n | e]; simpl.
    + by rewrite Hout.
    + by specialize (Hcount eq_refl).
  - by rewrite Hout.
Qed.

(** The failure of the sample request is the refused commit, and without
    the outage the same request commits the new total and runs its
    task. *)
Lemma refused_commit_is_reached :
  (serve_submit_attempt count_rows 10 right_answer 1 arena_out).1.1
  = Raise OperationalError.
Proof. vm_compute. reflexivity. Qed.

Lemma accepted_commit_runs_the_task :
  let served := serve_submit_attempt count_rows 10 right_answer 1 arena in
  is_ok served.1.1 = true ∧ served.1.2 = 1%nat ∧
  total_score <$> users (db served.2) !! 1 = Some 350.
Proof. vm_compute. repeat split. Qed.

End SubmitClaims.

(** * Further properties of the code *)

(** ** The cache wrapper on a Redis keyspace *)

Module CacheExtras.
Import CacheFacts.

(** *** Decimal texts *)

Lemma digit_of_char d : (d < 10)%N → digit_of (pretty_N_char d) = Some (Z.of_N d).
Proof.
  intros Hd.
  destruct d as [| p]; [reflexivity |].
  do 4 (destruct p as [p | p |]; try reflexivity; try (exfalso; lia)).
Qed.

Lemma parse_digits_pretty_go x :
  ∃ k, ∀ s acc, parse_digits (pretty_N_go x s) acc = parse_digits s (acc * k + Z.of_N x).
Proof.
  induction x as [x IH] using (well_founded_induction N.lt_wf_0).
  destruct (decide (0 < x)%N) as [Hpos | Hzero].
  - destruct (IH (x `div` 10)%N) as [k Hk]; [apply N.div_lt; lia |].
    exists (10 * k). intros s acc. rewrite pretty_N_go_step by done. rewrite Hk. simpl.
    rewrite digit_of_char by (apply N.mod_lt; lia).
    f_equal. rewrite (N.div_mod x 10) at 3 by lia.
    rewrite N2Z.inj_add, N2Z.inj_mul. simpl Z.of_N. lia.
  - assert (x = 0%N) as -> by lia. exists 1. intros s acc.
    rewrite pretty_N_go_0. f_equal. simpl. lia.
Qed.

Lemma parse_digits_pretty_pos p : parse_digits (pretty (N.pos p)) 0 = Some (Z.pos p).
Proof.
  unfold pretty, pretty_N. rewrite decide_False by done.
  destruct (parse_digits_pretty_go (N.pos p)) as [k Hk]. rewrite Hk. simpl. done.
Qed.

Lemma parse_digits_dash s acc : parse_digits (String "-" s) acc = None.
Proof. reflexivity. Qed.

(** Reading the decimal text of an integer gives the integer back. *)
Lemma parse_int_pretty z : parse_int (pretty z) = Some z.
Proof.
  destruct z as [| p | p]; [reflexivity | |].
  - change (pretty (Z.pos p)) with (pretty (N.pos p)).
    pose proof (parse_digits_pretty_pos p) as Hp.
    destruct (pretty (N.pos p)) as [| c s] eqn:E; [discriminate Hp |].
    unfold parse_int.
    destruct (Ascii.eqb_spec c "-") as [-> | Hc]; [by rewrite parse_digits_dash in Hp |].
    destruct c as [[] [] [] [] [] [] [] []]; try exact Hp; by destruct Hc.
  - change (pretty (Z.neg p)) with ("-" +:+ pretty (N.pos p)).
    pose proof (parse_digits_pretty_pos p) as Hp.
    destruct (pretty (N.pos p)) as [| c s] eqn:E; [discriminate Hp |].
    change (parse_int ("-" +:+ String c s)) with (Z.opp <$> parse_digits (String c s) 0).
    by rewrite Hp.
Qed.

(** *** Strings with a time to live *)





(** X2. [cache.delete(key)] returns normally whether the key exists or
    not; afterwards [cache.get(key)] is [None], and every other key reads
    as before. *)
Theorem delete_removes_only_the_key key other r :
  other ≠ key →
  (CacheService.delete [VStr key] r).1 = Ok VNone ∧
  (CacheService.get [VStr key] (CacheService.delete [VStr key] r).2).1 = Ok VNone ∧
  (CacheService.get [VStr other] (CacheService.delete [VStr key] r).2).1
  = (CacheService.get [VStr other] r).1.
Proof.
  intros Hne. split; [done |].
  unfold CacheService.get, CacheService.delete, bind, ret, Redis.delete, Redis.get. simpl.
  unfold Redis.lookup_live, Redis.with_keys. simpl.
  rewrite lookup_delete_eq. rewrite lookup_delete_ne by congruence.
  split; [done |].
  destruct (Redis.keys r !! other) as [[v [e |] | m] |]; simpl; try done.
  by destruct (decide (e <= Redis.now r)).
Qed.

Lemma delete_removes_only_the_key_witness :
  (CacheService.delete [VStr "a"] (CacheService.set [VStr "b"; VStr "x"] Redis.empty).2).1
  = Ok VNone ∧
  (CacheService.get [VStr "a"]
     (CacheService.delete [VStr "a"] (CacheService.set [VStr "b"; VStr "x"] Redis.empty).2).2).1
  = Ok VNone ∧
  (CacheService.get [VStr "b"]
     (CacheService.delete [VStr "a"] (CacheService.set [VStr "b"; VStr "x"] Redis.empty).2).2).1
  = (CacheService.get [VStr "b"] (CacheService.set [VStr "b"; VStr "x"] Redis.empty).2).1.
Proof.
  apply (delete_removes_only_the_key "a" "b"
           (CacheService.set [VStr "b"; VStr "x"] Redis.empty).2).
  discriminate.
Defined.

(** *** Counters *)

Lemma increment_absent key r :
  Redis.lookup_live key r = None →
  CacheService.increment [VStr key] r
  = (Ok (VInt 1), Redis.with_keys (insert key (Redis.RStr "1" None)) r).
Proof.
  intros Hk. unfold CacheService.increment, bind, Redis.incr. by rewrite Hk.
Qed.

(** Redis takes the decimal text of a 64-bit integer for that
    integer. *)
Lemma read_int_pretty z :
  Redis.int64_min <= z <= Redis.int64_max → Redis.read_int (pretty z) = Some z.
Proof.
  intros Hz. unfold Redis.read_int. rewrite parse_int_pretty, String.eqb_refl.
  destruct (Redis.int64_min <=? z) eqn:E1; [| lia].
  destruct (z <=? Redis.int64_max) eqn:E2; [| lia]. done.
Qed.

Lemma increment_number key z e r :
  Redis.int64_min <= z < Redis.int64_max →
  Redis.lookup_live key r = Some (Redis.RStr (pretty z) e) →
  CacheService.increment [VStr key] r
  = (Ok (VInt (z + 1)),
     Redis.with_keys (insert key (Redis.RStr (pretty (z + 1)) e)) r).
Proof.
  intros Hz Hk. unfold CacheService.increment, bind, Redis.incr.
  rewrite Hk, read_int_pretty by lia.
  destruct (z <? Redis.int64_max) eqn:E; [done | lia].
Qed.

(** At the greatest 64-bit integer the counter stops: INCR is refused
    and the key keeps its value. *)
Lemma increment_overflow key e r :
  Redis.lookup_live key r = Some (Redis.RStr (pretty Redis.int64_max) e) →
  CacheService.increment [VStr key] r = (Raise ResponseError, r).
Proof.
  intros Hk. unfold CacheService.increment, bind, Redis.incr.
  rewrite Hk, read_int_pretty by (unfold Redis.int64_min, Redis.int64_max; lia). done.
Qed.

Lemma lookup_live_insert_forever key v r :
  Redis.lookup_live key (Redis.with_keys (insert key (Redis.RStr v None)) r)
  = Some (Redis.RStr v None).
Proof.
  unfold Redis.lookup_live, Redis.with_keys. simpl. by rewrite lookup_insert_eq.
Qed.

Lemma increments_lookup key n r :
  Redis.lookup_live key r = None →
  Z.of_nat (S n) <= Redis.int64_max →
  Redis.lookup_live key
    (Nat.iter (S n) (fun r => (CacheService.increment [VStr key] r).2) r)
  = Some (Redis.RStr (pretty (Z.of_nat (S n))) None).
Proof.
  intros Hk. induction n as [| n IH]; intros Hn.
  - unfold Nat.iter. cbn [nat_rect]. rewrite increment_absent by done. cbn [snd].
    apply lookup_live_insert_forever.
  - unfold Nat.iter in *. cbn [nat_rect] in *.
    rewrite (increment_number key (Z.of_nat (S n)) None);
      [| unfold Redis.int64_min; lia | apply IH; lia].
    cbn [snd]. rewrite lookup_live_insert_forever. repeat f_equal. lia.
Qed.

(** X3. [cache.increment(key)] counts calls: after [n] calls on a key
    that did not exist, [n] no more than the greatest signed 64-bit
    integer, every call has returned and [cache.get(key)] returns the
    decimal text of [n], which [int()] reads back as [n]. At that
    greatest integer the counter stops: the next call raises and the key
    keeps its value. *)
Theorem increments_count key n r :
  Redis.lookup_live key r = None →
  (0 < n)%nat →
  Z.of_nat n <= Redis.int64_max →
  let counted := Nat.iter n (fun r => (CacheService.increment [VStr key] r).2) r in
  (CacheService.get [VStr key] counted).1 = Ok (VStr (pretty (Z.of_nat n))) ∧
  Leaderboard.py_int (VStr (pretty (Z.of_nat n))) = Ok (Z.of_nat n) ∧
  (Z.of_nat n = Redis.int64_max →
   CacheService.increment [VStr key] counted = (Raise ResponseError, counted)).
Proof.
  intros Hk Hn Hmax counted. subst counted. destruct n as [| n]; [lia |].
  pose proof (increments_lookup key n r Hk Hmax) as Hlook.
  split; [| split].
  - unfold CacheService.get, Redis.get. by rewrite Hlook.
  - unfold Leaderboard.py_int. by rewrite parse_int_pretty.
  - intros Hlast. rewrite Hlast in Hlook. by apply increment_overflow in Hlook.
Qed.

Lemma increments_count_witness :
  let counted := Nat.iter 12 (fun r => (CacheService.increment [VStr "hits"] r).2)
                   Redis.empty in
  (CacheService.get [VStr "hits"] counted).1 = Ok (VStr (pretty (Z.of_nat 12))) ∧
  Leaderboard.py_int (VStr (pretty (Z.of_nat 12))) = Ok (Z.of_nat 12) ∧
  (Z.of_nat 12 = Redis.int64_max →
   CacheService.increment [VStr "hits"] counted = (Raise ResponseError, counted)).
Proof.
  apply (increments_count "hits" 12 Redis.empty);
    [reflexivity | lia | unfold Redis.int64_max; lia].
Defined.



(** *** Sorted sets *)

Lemma zinsert_perm x l : Redis.zinsert x l ≡ₚ x :: l.
Proof.
  induction l as [| y l IH]; simpl; [done |].
  destruct (Redis.zle x y); [done |]. rewrite IH. apply perm_swap.
Qed.

Lemma zsorted_perm m : Redis.zsorted m ≡ₚ map_to_list m.
Proof.
  unfold Redis.zsorted. induction (map_to_list m) as [| x l IH]; simpl; [done |].
  rewrite zinsert_perm. by rewrite IH.
Qed.

Lemma zle_true x y : Redis.zle x y = true → x.2 <= y.2.
Proof. unfold Redis.zle. intros H. apply orb_prop in H as [H | H]; lia. Qed.

Lemma zle_false x y : Redis.zle x y = false → y.2 <= x.2.
Proof.
  unfold Redis.zle. intros H. apply orb_false_elim in H as [H _]. lia.
Qed.

Lemma zinsert_sorted x l :
  StronglySorted (fun a b => a.2 <= b.2) l →
  StronglySorted (fun a b => a.2 <= b.2) (Redis.zinsert x l).
Proof.
  induction 1 as [| y l Hl IH Hy]; simpl; [by repeat constructor |].
  destruct (Redis.zle x y) eqn:E.
  - apply zle_true in E. constructor; [by constructor |].
    constructor; [done |]. eapply Forall_impl; [exact Hy |]. simpl. intros z ?. lia.
  - apply zle_false in E. constructor; [done |].
    rewrite zinsert_perm. by constructor.
Qed.

Lemma zsorted_sorted m : StronglySorted (fun a b => a.2 <= b.2) (Redis.zsorted m).
Proof.
  unfold Redis.zsorted. induction (map_to_list m) as [| x l IH]; simpl; [constructor |].
  by apply zinsert_sorted.
Qed.

Lemma rev_sorted (l : list (string * Z)) :
  StronglySorted (fun a b => a.2 <= b.2) l →
  StronglySorted (fun a b => b.2 <= a.2) (rev l).
Proof.
  induction 1 as [| x l Hl IH Hx]; simpl; [constructor |].
  apply StronglySorted_app. split; [| split; [done | by repeat constructor]].
  intros a b Ha Hb. apply list_elem_of_singleton in Hb as ->.
  apply list_elem_of_In, in_rev, list_elem_of_In in Ha.
  rewrite Forall_forall in Hx. by apply Hx.
Qed.

(** The first [stop + 1] members of a sorted set, best first. *)
Lemma zrange_top key stop m r :
  Redis.lookup_live key r = Some (Redis.RZSet m) →
  0 <= stop →
  ∃ top rest,
    Redis.zrange key 0 stop true r = (Ok (VPairs top), r) ∧
    (top ++ rest)%list ≡ₚ map_to_list m ∧
    length top = (Z.to_nat (stop + 1) `min` size m)%nat ∧
    StronglySorted (fun a b => b.2 <= a.2) top ∧
    (∀ a b, a ∈ top → b ∈ rest → b.2 <= a.2).
Proof.
  intros Hk Hstop.
  set (d := rev (Redis.zsorted m)).
  assert (length d = size m) as Hlen.
  { subst d. rewrite length_rev, <- length_map_to_list. apply Permutation_length, zsorted_perm. }
  set (k := Z.to_nat (Z.min stop (Z.of_nat (length d) - 1) - 0 + 1)).
  exists (take k d), (drop k d).
  assert (StronglySorted (fun a b : string * Z => b.2 <= a.2) (take k d ++ drop k d))
    as Hsorted.
  { rewrite take_drop. apply rev_sorted, zsorted_sorted. }
  apply StronglySorted_app in Hsorted as (Hcross & Htop & _).
  split.
  { unfold Redis.zrange. rewrite Hk.
    unfold Redis.zindex. simpl (0 <? 0). cbv iota.
    destruct (stop <? 0) eqn:E; [lia |]. done. }
  split.
  - rewrite take_drop. subst d. rewrite <- Permutation_rev. apply zsorted_perm.
  - split; [| split; [exact Htop | exact Hcross]].
    rewrite length_take. subst k. lia.
Qed.



(** X6. [cache.add_to_sorted_set(key, score, member)] on a key that
    holds a sorted set or nothing, with a score that a double holds
    exactly, returns normally, gives the member the score whatever its
    score was, and leaves the score of every other member as it was. *)
Theorem add_to_sorted_set_sets_one_score key score member other r :
  (∀ s e, Redis.lookup_live key r ≠ Some (Redis.RStr s e)) →
  Redis.exact score →
  other ≠ member →
  let r' := (CacheService.add_to_sorted_set [VStr key; VInt score; VStr member] r).2 in
  (CacheService.add_to_sorted_set [VStr key; VInt score; VStr member] r).1 = Ok VNone ∧
  Redis.zscore key member r' = Some score ∧
  Redis.zscore key other r' = Redis.zscore key other r.
Proof.
  intros Hkind _ Hne.
  unfold CacheService.add_to_sorted_set, bind, ret, Redis.zadd, Redis.zscore.
  destruct (Redis.lookup_live key r) as [[s e | m] |] eqn:Hk.
  - by destruct (Hkind s e).
  - simpl. unfold Redis.lookup_live, Redis.with_keys. simpl. rewrite lookup_insert_eq.
    rewrite lookup_insert_eq. by rewrite lookup_insert_ne by done.
  - simpl. unfold Redis.lookup_live, Redis.with_keys. simpl. rewrite lookup_insert_eq.
    rewrite lookup_singleton_eq. by rewrite lookup_singleton_ne by done.
Qed.

Lemma add_to_sorted_set_sets_one_score_witness :
  let r := (CacheService.add_to_sorted_set [VStr "leaderboard"; VInt 100; VStr "7"]
              Redis.empty).2 in
  let r' := (CacheService.add_to_sorted_set [VStr "leaderboard"; VInt 250; VStr "8"] r).2 in
  (CacheService.add_to_sorted_set [VStr "leaderboard"; VInt 250; VStr "8"] r).1 = Ok VNone ∧
  Redis.zscore "leaderboard" "8" r' = Some 250 ∧
  Redis.zscore "leaderboard" "7" r' = Redis.zscore "leaderboard" "7" r.
Proof.
  apply (add_to_sorted_set_sets_one_score "leaderboard" 250 "8" "7"
           (CacheService.add_to_sorted_set [VStr "leaderboard"; VInt 100; VStr "7"]
              Redis.empty).2).
  - intros s e. vm_compute. discriminate.
  - unfold Redis.exact. lia.
  - discriminate.
Defined.

End CacheExtras.

(** ** The connection registry *)

Module RegistryExtras.
Import Server ServerFacts Sockets Samples.

Local Arguments given : simpl never.

(** What [connect] does on a websocket whose transport works. *)
Lemma connect_joins n ws u channel :
  consistent (manager n) →
  ws ∉ broken n →
  ∃ n', connect ws u channel n = (Ok tt, n') ∧
    active_connections (manager n') !! u
    = Some ({[ ws ]} ∪ default ∅ (active_connections (manager n) !! u)) ∧
    user_channels (manager n') !! u
    = Some ((if given channel then {[ default EmptyString channel ]} else ∅)
            ∪ default ∅ (user_channels (manager n) !! u)) ∧
    (∀ u', u' ≠ u →
           active_connections (manager n') !! u' = active_connections (manager n) !! u' ∧
           user_channels (manager n') !! u' = user_channels (manager n) !! u') ∧
    broken n' = broken n ∧ delivered n' = delivered n.
Proof.
  intros [Hdom _] Hb.
  unfold connect, bind, accept, gets, modify, add_connection, add_channel, ret, with_manager.
  rewrite decide_False by done. simpl.
  destruct (active_connections (manager n) !! u) as [conns |] eqn:E; simpl.
  - rewrite E. simpl.
    assert (is_Some (user_channels (manager n) !! u)) as [chans Hch].
    { apply elem_of_dom. rewrite <- Hdom. apply elem_of_dom. by eexists. }
    rewrite Hch. simpl.
    destruct channel as [c |]; [destruct (given (Some c)) |]; simpl;
      rewrite ?Hch; simpl; eexists; (split; [reflexivity |]); simpl;
      rewrite ?lookup_insert_eq;
      rewrite ?(left_id_L ∅ (∪)); (split; [done |]); (split; [done |]);
      (split; [| done]); intros u' Hu'; by rewrite ?lookup_insert_ne by done.
  - assert (user_channels (manager n) !! u = None) as Hch.
    { apply not_elem_of_dom. rewrite <- Hdom. by apply not_elem_of_dom. }
    rewrite Hch, lookup_insert_eq. simpl.
    destruct channel as [c |]; [destruct (given (Some c)) |]; simpl;
      rewrite ?lookup_insert_eq; simpl; eexists; (split; [reflexivity |]); simpl;
      rewrite ?lookup_insert_eq;
      rewrite ?(left_id_L ∅ (∪)); (split; [done |]); (split; [done |]);
      (split; [| done]); intros u' Hu'; by rewrite ?lookup_insert_ne by done.
Qed.

Lemma connect_returns_accepted n ws u channel n' :
  connect ws u channel n = (Ok tt, n') → ws ∉ broken n.
Proof.
  unfold connect, bind, accept. by destruct (decide (ws ∈ broken n)).
Qed.

(** X7. When [connect] returns, the websocket has joined the
    connections of its member and the channel, when one is given, the
    channels of the member; the entries of every other member, the
    transports and the delivered messages are untouched. *)
Theorem connect_only_adds n ws u channel n' :
  consistent (manager n) →
  connect ws u channel n = (Ok tt, n') →
  active_connections (manager n') !! u
  = Some ({[ ws ]} ∪ default ∅ (active_connections (manager n) !! u)) ∧
  user_channels (manager n') !! u
  = Some ((if given channel then {[ default EmptyString channel ]} else ∅)
          ∪ default ∅ (user_channels (manager n) !! u)) ∧
  (∀ u', u' ≠ u →
         active_connections (manager n') !! u' = active_connections (manager n) !! u' ∧
         user_channels (manager n') !! u' = user_channels (manager n) !! u') ∧
  broken n' = broken n ∧ delivered n' = delivered n.
Proof.
  intros Hc Hconn.
  destruct (connect_joins n ws u channel Hc (connect_returns_accepted _ _ _ _ _ Hconn))
    as (n1 & Hn1 & Hrest).
  rewrite Hconn in Hn1. by injection Hn1 as <-.
Qed.

Lemma connect_only_adds_witness :
  active_connections (manager (connect 3 7 (Some "puzzle_4") two_members).2) !! 7
  = Some ({[ 3%positive ]} ∪ default ∅ (active_connections (manager two_members) !! 7)) ∧
  user_channels (manager (connect 3 7 (Some "puzzle_4") two_members).2) !! 7
  = Some ((if given (Some "puzzle_4") then {[ default EmptyString (Some "puzzle_4") ]} else ∅)
          ∪ default ∅ (user_channels (manager two_members) !! 7)) ∧
  (∀ u', u' ≠ 7 →
         active_connections (manager (connect 3 7 (Some "puzzle_4") two_members).2) !! u'
         = active_connections (manager two_members) !! u' ∧
         user_channels (manager (connect 3 7 (Some "puzzle_4") two_members).2) !! u'
         = user_channels (manager two_members) !! u') ∧
  broken (connect 3 7 (Some "puzzle_4") two_members).2 = broken two_members ∧
  delivered (connect 3 7 (Some "puzzle_4") two_members).2 = delivered two_members.
Proof.
  apply (connect_only_adds two_members 3 7 (Some "puzzle_4")).
  - unfold consistent. apply (bool_decide_unpack _). vm_compute. exact I.
  - vm_compute. reflexivity.
Defined.

(** X8. A [disconnect] that returned has removed the websocket for
    good: the same [disconnect] again raises [KeyError] and changes
    nothing. *)
Theorem disconnect_twice_raises n ws u n' :
  disconnect ws u n = (Ok tt, n') →
  disconnect ws u n' = (Raise KeyError, n').
Proof.
  unfold disconnect at 1. intros Hd.
  destruct (active_connections (manager n) !! u) as [conns |] eqn:E; [| done].
  destruct (decide (ws ∈ conns)); [| done].
  destruct (decide (conns ∖ {[ws]} = ∅)).
  - destruct (user_channels (manager n) !! u); [| done].
    injection Hd as <-. unfold disconnect. simpl. by rewrite lookup_delete_eq.
  - injection Hd as <-. unfold disconnect. simpl. rewrite lookup_insert_eq.
    rewrite decide_False; [done |]. apply remove_gone.
Qed.

Lemma disconnect_twice_raises_witness :
  disconnect 1 7 (disconnect 1 7 two_members).2
  = (Raise KeyError, (disconnect 1 7 two_members).2).
Proof. apply (disconnect_twice_raises two_members 1 7). vm_compute. reflexivity. Defined.

Lemma remove_added (ws : WebSocket) (conns : gset WebSocket) :
  ws ∉ conns → ({[ ws ]} ∪ conns) ∖ {[ ws ]} = conns.
Proof.
  intros Hout. apply set_eq. intros x.
  rewrite elem_of_difference, elem_of_union, !elem_of_singleton.
  split; [intros [[-> | Hin] Hne]; done | intros Hin; split; [by right | by intros ->]].
Qed.

Lemma connect_then_disconnect n ws u :
  consistent (manager n) →
  ws ∉ broken n →
  ws ∉ default ∅ (active_connections (manager n) !! u) →
  ∃ n1, connect ws u None n = (Ok tt, n1) ∧ disconnect ws u n1 = (Ok tt, n).
Proof.
  intros [Hdom Hne] Hb Hout. destruct n as [[active channels] brk log]. simpl in *.
  unfold connect, bind, accept, gets, modify, add_connection, add_channel, ret, with_manager.
  simpl. rewrite decide_False by done. simpl.
  destruct (active !! u) as [conns |] eqn:E; simpl in *.
  - rewrite E. simpl. eexists. split; [reflexivity |]. unfold disconnect. simpl.
    rewrite lookup_insert_eq.
    rewrite decide_True by (apply elem_of_union; left; by apply elem_of_singleton).
    rewrite remove_added by done.
    rewrite decide_False by (by eapply Hne). simpl.
    unfold with_manager, set_active. simpl.
    by rewrite insert_insert_eq, insert_id.
  - rewrite lookup_insert_eq. simpl. eexists. split; [reflexivity |]. unfold disconnect. simpl.
    rewrite lookup_insert_eq.
    rewrite decide_True by (apply elem_of_union; left; by apply elem_of_singleton).
    rewrite remove_added by (apply not_elem_of_empty).
    rewrite decide_True by done. rewrite lookup_insert_eq.
    unfold with_manager, set_channels, set_active. simpl.
    assert (channels !! u = None) as Hch.
    { apply not_elem_of_dom. rewrite <- Hdom. by apply not_elem_of_dom. }
    rewrite !delete_insert_eq, !delete_id by done. done.
Qed.

(** X9. Connecting a websocket without a channel and disconnecting it
    again gives back the registry as it was, for a websocket that was not
    yet among the connections of the member and whose transport
    works. *)
Theorem connect_disconnect_round_trip n ws u :
  consistent (manager n) →
  ws ∉ broken n →
  ws ∉ default ∅ (active_connections (manager n) !! u) →
  (connect ws u None n).1 = Ok tt ∧
  disconnect ws u (connect ws u None n).2 = (Ok tt, n).
Proof.
  intros Hc Hb Hout.
  destruct (connect_then_disconnect n ws u Hc Hb Hout) as (n1 & Hconnect & Hdisconnect).
  rewrite Hconnect. by split.
Qed.

Lemma connect_disconnect_round_trip_witness :
  (connect 5 9 None two_members).1 = Ok tt ∧
  disconnect 5 9 (connect 5 9 None two_members).2 = (Ok tt, two_members).
Proof.
  apply (connect_disconnect_round_trip two_members 5 9).
  - unfold consistent. apply (bool_decide_unpack _). vm_compute. exact I.
  - apply (bool_decide_unpack _). vm_compute. exact I.
  - apply (bool_decide_unpack _). vm_compute. exact I.
Defined.

(** X10. The channels belong to the member, not to the connection that
    brought them: when [disconnect] returns and the member has another
    connection left, the member keeps all its channels; when it was the
    last connection, the member and its channels are forgotten. *)
Theorem disconnect_keeps_channels_of_member n ws u n' conns :
  disconnect ws u n = (Ok tt, n') →
  active_connections (manager n) !! u = Some conns →
  (conns ∖ {[ ws ]} ≠ ∅ →
   user_channels (manager n') = user_channels (manager n) ∧
   active_connections (manager n') !! u = Some (conns ∖ {[ ws ]})) ∧
  (conns ∖ {[ ws ]} = ∅ →
   user_channels (manager n') !! u = None ∧ active_connections (manager n') !! u = None).
Proof.
  unfold disconnect. intros Hd E. rewrite E in Hd.
  destruct (decide (ws ∈ conns)); [| done].
  destruct (decide (conns ∖ {[ws]} = ∅)) as [Hrest | Hrest].
  - destruct (user_channels (manager n) !! u); [| done].
    injection Hd as <-. simpl. split; [done |]. intros _.
    by rewrite !lookup_delete_eq.
  - injection Hd as <-. simpl. split; [| done]. intros _.
    by rewrite lookup_insert_eq.
Qed.

Lemma disconnect_keeps_channels_of_member_witness :
  let n := run [Connect 3 7 (Some "puzzle_4")] two_members in
  (({[ 3%positive; 1%positive ]} : gset WebSocket) ∖ {[ 3%positive ]} ≠ ∅ →
   user_channels (manager (disconnect 3 7 n).2) = user_channels (manager n) ∧
   active_connections (manager (disconnect 3 7 n).2) !! 7
   = Some (({[ 3%positive; 1%positive ]} : gset WebSocket) ∖ {[ 3%positive ]})) ∧
  (({[ 3%positive; 1%positive ]} : gset WebSocket) ∖ {[ 3%positive ]} = ∅ →
   user_channels (manager (disconnect 3 7 n).2) !! 7 = None ∧
   active_connections (manager (disconnect 3 7 n).2) !! 7 = None).
Proof.
  apply (disconnect_keeps_channels_of_member
           (run [Connect 3 7 (Some "puzzle_4")] two_members) 3 7).
  - vm_compute. reflexivity.
  - vm_compute. reflexivity.
Defined.

(** *** Who a broadcast reaches *)

Lemma broadcast_loop_subscribers msg c (l : list (Z * gset string)) n :
  given (Some c) = true →
  (∀ u chans, (u, chans) ∈ l → user_channels (manager n) !! u = Some chans) →
  sent_to (subscriber (manager n) c) msg n
    (for_each l
       (fun '(user_id, channels) =>
          if negb (given (Some c)) || bool_decide (default EmptyString (Some c) ∈ channels)
          then send_personal_message msg user_id
          else ret tt) n).2.
Proof.
  intros Hg. rewrite Hg. simpl negb. simpl orb. simpl default.
  revert n. induction l as [| [u chans] l IH]; intros n Hl; simpl.
  - apply sent_to_refl.
  - set (body := if bool_decide (c ∈ chans) then send_personal_message msg u else ret tt).
    assert (sent_to (subscriber (manager n) c) msg n (body n).2) as Hb.
    { unfold body. destruct (bool_decide (c ∈ chans)) eqn:Hc.
      - apply bool_decide_eq_true in Hc.
        eapply sent_to_weaken; [| apply send_personal_message_sent].
        intros ws (conns & ? & ?). exists u, conns, chans. repeat split; try done.
        apply Hl. apply list_elem_of_here.
      - apply sent_to_refl. }
    unfold bind. destruct (body n) as [[[] | e] n1] eqn:E; simpl in *; [| done].
    eapply sent_to_trans; [exact Hb |].
    destruct Hb as (Hm & _). rewrite <- Hm. apply IH.
    intros u' chans' Hin. rewrite Hm. apply Hl. by apply list_elem_of_further.
Qed.

Lemma broadcast_subscribers msg c n :
  given (Some c) = true →
  sent_to (subscriber (manager n) c) msg n (broadcast msg (Some c) n).2.
Proof.
  intros Hg. apply broadcast_loop_subscribers; [done |].
  intros u chans Hin. by apply elem_of_map_to_list.
Qed.

(** X11. A broadcast on a channel is handed to the websockets of the
    members that have the channel, and to no other: each message it
    hands out goes to such a websocket, the registry is left as it was,
    and, no registered transport being broken, the broadcast returns and
    every such websocket is reached. *)
Theorem broadcast_reaches_subscribers_only n msg c :
  given (Some c) = true →
  sent_to (subscriber (manager n) c) msg n (broadcast msg (Some c) n).2 ∧
  (∀ ws, ws ∈ recipients (Some c) n → subscriber (manager n) c ws) ∧
  (healthy n →
   (broadcast msg (Some c) n).1 = Ok tt ∧
   ∀ ws, subscriber (manager n) c ws →
         ws ∈ recipients (Some c) n ∧ (ws, msg) ∈ delivered (broadcast msg (Some c) n).2).
Proof.
  intros Hg. split; [by apply broadcast_subscribers |]. split.
  - intros ws Hin. unfold recipients in Hin.
    match type of Hin with
    | context [broadcast ?p ?ch ?n0] =>
        destruct (broadcast_subscribers p c n0 Hg) as (_ & _ & new & Hd & Hf)
    end.
    rewrite Hd in Hin. simpl in Hin.
    apply list_elem_of_fmap in Hin as ([ws' m] & -> & Hin).
    rewrite Forall_forall in Hf. by destruct (Hf _ Hin) as [? _].
  - intros Hh. split.
    + by destruct (broadcast_loop_all msg (Some c)
                     (map_to_list (user_channels (manager n))) n Hh).
    + intros ws (u & conns & chans & Hl & Hws & Hch & Hc).
      assert (negb (given (Some c)) || bool_decide (default EmptyString (Some c) ∈ chans)
              = true) as Hcond.
      { rewrite Hg. simpl. by apply bool_decide_eq_true. }
      split.
      * by eapply recipients_reaches.
      * by eapply broadcast_reaches.
Qed.

Lemma broadcast_reaches_subscribers_only_witness :
  sent_to (subscriber (manager two_members) "leaderboard") note two_members
    (broadcast note (Some "leaderboard") two_members).2 ∧
  (∀ ws, ws ∈ recipients (Some "leaderboard") two_members →
         subscriber (manager two_members) "leaderboard" ws) ∧
  (healthy two_members →
   (broadcast note (Some "leaderboard") two_members).1 = Ok tt ∧
   ∀ ws, subscriber (manager two_members) "leaderboard" ws →
         ws ∈ recipients (Some "leaderboard") two_members ∧
         (ws, note) ∈ delivered (broadcast note (Some "leaderboard") two_members).2).
Proof.
  apply (broadcast_reaches_subscribers_only two_members note "leaderboard"). reflexivity.
Defined.

(** X12. No registered transport being broken, a personal message is
    handed once to each connection of the member and to nobody else, and
    the registry is left as it was. *)
Theorem personal_message_once_each n msg u conns :
  healthy n →
  active_connections (manager n) !! u = Some conns →
  ∃ new,
    send_personal_message msg u n
    = (Ok tt, {| manager := manager n; broken := broken n;
                 delivered := (delivered n ++ new)%list |}) ∧
    NoDup new ∧
    ∀ d, d ∈ new ↔ d.1 ∈ conns ∧ d.2 = msg.
Proof.
  intros Hh Hl. exists ((fun ws => (ws, msg)) <$> elements conns).
  unfold send_personal_message. rewrite Hl. split; [| split].
  - apply for_each_send_healthy. intros x Hx. eapply Hh; [exact Hl |].
    by apply elem_of_elements.
  - apply NoDup_fmap_2; [| apply NoDup_elements]. by intros x y [= ->].
  - intros [ws m]. rewrite list_elem_of_fmap. simpl. split.
    + intros (x & [= -> ->] & Hx). split; [by apply elem_of_elements | done].
    + intros [Hws ->]. exists ws. split; [done | by apply elem_of_elements].
Qed.

Lemma personal_message_once_each_witness :
  ∃ new,
    send_personal_message note 7 two_members
    = (Ok tt, {| manager := manager two_members; broken := broken two_members;
                 delivered := (delivered two_members ++ new)%list |}) ∧
    NoDup new ∧
    ∀ d, d ∈ new ↔ d.1 ∈ ({[ 1%positive ]} : gset WebSocket) ∧ d.2 = note.
Proof.
  apply (personal_message_once_each two_members note 7).
  - unfold healthy. apply (bool_decide_unpack _). vm_compute. exact I.
  - vm_compute. reflexivity.
Defined.

(** *** A broken transport *)

Lemma for_each_send_raises msg xs n e n' :
  for_each xs (send_json msg) n = (Raise e, n') → e = TransportError.
Proof.
  revert n. induction xs as [| x xs IH]; intros n; simpl; [done |].
  unfold bind, send_json at 1. destruct (decide (x ∈ broken n)); [by intros [= <- _] |].
  apply IH.
Qed.

Lemma for_each_send_broken msg xs n x :
  x ∈ xs → x ∈ broken n → (for_each xs (send_json msg) n).1 = Raise TransportError.
Proof.
  revert n. induction xs as [| y xs IH]; intros n Hin Hb; [by apply elem_of_nil in Hin |].
  simpl. unfold bind, send_json at 1.
  destruct (decide (y ∈ broken n)); [done |].
  apply elem_of_cons in Hin as [-> | Hin]; [done |]. by apply IH.
Qed.

Lemma send_personal_message_raises msg u n e n' :
  send_personal_message msg u n = (Raise e, n') → e = TransportError.
Proof.
  unfold send_personal_message.
  destruct (active_connections (manager n) !! u); [apply for_each_send_raises | done].
Qed.

Lemma broadcast_loop_broken msg channel (l : list (Z * gset string)) n u chans conns ws :
  (u, chans) ∈ l →
  negb (given channel) || bool_decide (default EmptyString channel ∈ chans) = true →
  active_connections (manager n) !! u = Some conns → ws ∈ conns → ws ∈ broken n →
  (for_each l
     (fun '(user_id, channels) =>
        if negb (given channel) || bool_decide (default EmptyString channel ∈ channels)
        then send_personal_message msg user_id
        else ret tt) n).1 = Raise TransportError.
Proof.
  intros Hin Hcond Hl Hws Hb. revert n Hl Hb.
  induction l as [| [u' chans'] l IH]; intros n Hl Hb; [by apply elem_of_nil in Hin |].
  simpl.
  set (body := if negb (given channel) || bool_decide (default EmptyString channel ∈ chans')
               then send_personal_message msg u' else ret tt).
  assert (sent_to (registered (manager n)) msg n (body n).2) as Hs.
  { unfold body.
    destruct (negb (given channel) || bool_decide (default EmptyString channel ∈ chans')).
    - eapply sent_to_weaken; [| apply send_personal_message_sent].
      intros x (conns' & ? & ?). by exists u', conns'.
    - apply sent_to_refl. }
  unfold bind. destruct (body n) as [[[] | e] n1] eqn:E; simpl in *.
  - destruct Hs as (Hm & Hbr & _).
    apply elem_of_cons in Hin as [[= <- <-] | Hin].
    + exfalso. unfold body in E. rewrite Hcond in E.
      unfold send_personal_message in E. rewrite Hl in E.
      pose proof (for_each_send_broken msg (elements conns) n ws) as Hf.
      rewrite E in Hf. simpl in Hf. discriminate Hf; [by apply elem_of_elements | done].
    + apply IH; [done | by rewrite Hm | by rewrite Hbr].
  - f_equal. unfold body in E.
    destruct (negb (given channel) || bool_decide (default EmptyString channel ∈ chans'));
      [| done].
    by eapply send_personal_message_raises.
Qed.

Lemma broadcast_broken n msg channel u chans conns ws :
  user_channels (manager n) !! u = Some chans →
  negb (given channel) || bool_decide (default EmptyString channel ∈ chans) = true →
  active_connections (manager n) !! u = Some conns →
  ws ∈ conns →
  ws ∈ broken n →
  (broadcast msg channel n).1 = Raise TransportError.
Proof.
  intros Hch Hcond Hl Hws Hb.
  eapply broadcast_loop_broken; try done. by apply elem_of_map_to_list.
Qed.

(** X13. One broken transport stops a whole broadcast: when a websocket
    that the broadcast is due to reach has a broken transport, the
    broadcast raises instead of returning, and it leaves the websocket
    registered. *)
Theorem broken_transport_stops_broadcast n msg channel u chans conns ws :
  user_channels (manager n) !! u = Some chans →
  negb (given channel) || bool_decide (default EmptyString channel ∈ chans) = true →
  active_connections (manager n) !! u = Some conns →
  ws ∈ conns →
  ws ∈ broken n →
  (broadcast msg channel n).1 = Raise TransportError ∧
  manager (broadcast msg channel n).2 = manager n.
Proof.
  intros Hch Hcond Hl Hws Hb. split.
  - by eapply broadcast_broken.
  - by destruct (broadcast_sent msg channel n) as (-> & _).
Qed.

Lemma broken_transport_stops_broadcast_witness :
  let n := {| manager := manager two_members; broken := {[ 2%positive ]};
              delivered := [] |} in
  (broadcast note None n).1 = Raise TransportError ∧
  manager (broadcast note None n).2 = manager n.
Proof.
  apply (broken_transport_stops_broadcast
           {| manager := manager two_members; broken := {[ 2%positive ]}; delivered := [] |}
           note None 8 ∅ {[ 2%positive ]} 2).
  - vm_compute. reflexivity.
  - reflexivity.
  - vm_compute. reflexivity.
  - apply (bool_decide_unpack _). vm_compute. exact I.
  - apply (bool_decide_unpack _). vm_compute. exact I.
Defined.

End RegistryExtras.

(** ** The websocket endpoints *)

Module SocketExtras.
Import Server ServerFacts CacheFacts Sockets Samples CacheExtras RegistryExtras.

Local Arguments given : simpl never.

Lemma on_manager_run {A} (c : M Net A) h :
  on_manager c h = ((c (hub_net h)).1, set_hub_net (c (hub_net h)).2 h).
Proof. unfold on_manager, zoom. by destruct (c (hub_net h)). Qed.

Lemma on_net_run {A} (c : M Net A) w :
  on_net c w = ((c (net w)).1, set_net (c (net w)).2 w).
Proof. unfold on_net, zoom. by destruct (c (net w)). Qed.

Lemma puzzle_channel_given p : given (Some (puzzle_channel p)) = true.
Proof. reflexivity. Qed.

Lemma puzzle_channel_inj p q : puzzle_channel p = puzzle_channel q → p = q.
Proof.
  unfold puzzle_channel. intros H. apply (inj (String.app _)) in H.
  by apply (inj pretty) in H.
Qed.

(** X14. A client without a token, with an empty token, or with a
    token that [get_current_user] refuses is turned away with close code
    4001 or 4002: its websocket is closed, the registry and Redis are
    left as they were, nothing is sent, and none of its texts is
    read. *)
Theorem unauthenticated_client_is_turned_away get_current_user ws token channel incoming h :
  given token = false ∨ (∃ t e, token = Some t ∧ get_current_user t = Raise e) →
  websocket_endpoint get_current_user ws token channel incoming h
  = (Ok (Rejected (if given token then 4002 else 4001)),
     set_hub_net {| manager := manager (hub_net h);
                    broken := {[ ws ]} ∪ broken (hub_net h);
                    delivered := delivered (hub_net h) |} h).
Proof.
  intros [Hg | (t & e & -> & He)]; unfold websocket_endpoint.
  - rewrite Hg. by destruct token.
  - rewrite He. by destruct (given (Some t)).
Qed.

Lemma unauthenticated_client_is_turned_away_witness :
  websocket_endpoint (fun _ => Raise (HTTPException 401)) 1 None (Some "leaderboard")
    [NotJson] {| hub_redis := Redis.empty; hub_net := start |}
  = (Ok (Rejected (if given None then 4002 else 4001)),
     set_hub_net {| manager := manager start; broken := {[ 1%positive ]} ∪ broken start;
                    delivered := delivered start |}
       {| hub_redis := Redis.empty; hub_net := start |}).
Proof.
  apply (unauthenticated_client_is_turned_away (fun _ => Raise (HTTPException 401)) 1 None
           (Some "leaderboard") [NotJson] {| hub_redis := Redis.empty; hub_net := start |}).
  left. reflexivity.
Defined.

(** X15. The message [{"type": "leaderboard_subscribe"}] ends the
    endpoint: the branch dies on the name [self] before it does
    anything, so the member's channels are the ones [connect] left, no
    leaderboard is read or sent, the texts after the message are never
    read, and the websocket stays registered. *)
Theorem leaderboard_subscribe_ends_endpoint get_current_user ws t u channel m rest h :
  given (Some t) = true →
  get_current_user t = Ok u →
  consistent (manager (hub_net h)) →
  ws ∉ broken (hub_net h) →
  f_type m = Some "leaderboard_subscribe" →
  ∃ h',
    websocket_endpoint get_current_user ws (Some t) channel (Json m :: rest) h = (Ok Died, h') ∧
    hub_net h' = (connect ws u channel (hub_net h)).2 ∧
    hub_redis h' = hub_redis h ∧
    delivered (hub_net h') = delivered (hub_net h) ∧
    registered (manager (hub_net h')) ws ∧
    user_channels (manager (hub_net h')) !! u
    = Some ((if given channel then {[ default EmptyString channel ]} else ∅)
            ∪ default ∅ (user_channels (manager (hub_net h)) !! u)).
Proof.
  intros Hg Hu Hc Hb Hm.
  destruct (connect_joins (hub_net h) ws u channel Hc Hb)
    as (n' & Hn' & Hact & Hch & _ & _ & Hlog).
  exists (set_hub_net n' h).
  unfold websocket_endpoint. rewrite Hg, Hu. unfold bind at 1.
  rewrite on_manager_run, Hn'. simpl.
  unfold bind, endpoint_turn. rewrite Hm. simpl.
  repeat split; try done.
  eexists u, _. split; [exact Hact |]. apply elem_of_union. left. by apply elem_of_singleton.
Qed.

Lemma leaderboard_subscribe_ends_endpoint_witness :
  ∃ h',
    websocket_endpoint (fun _ => Ok 9) 5 (Some "token") None
      [Json {| f_type := Some "leaderboard_subscribe"; f_puzzle_id := None;
               f_progress := None; f_category := None |}; Gone]
      {| hub_redis := Redis.empty; hub_net := two_members |} = (Ok Died, h') ∧
    hub_net h' = (connect 5 9 None two_members).2 ∧
    hub_redis h' = Redis.empty ∧
    delivered (hub_net h') = delivered two_members ∧
    registered (manager (hub_net h')) 5 ∧
    user_channels (manager (hub_net h')) !! 9
    = Some ((if given None then {[ default EmptyString None ]} else ∅)
            ∪ default ∅ (user_channels (manager two_members) !! 9)).
Proof.
  apply (leaderboard_subscribe_ends_endpoint (fun _ => Ok 9) 5 "token" 9 None
           {| f_type := Some "leaderboard_subscribe"; f_puzzle_id := None;
              f_progress := None; f_category := None |} [Gone]
           {| hub_redis := Redis.empty; hub_net := two_members |}).
  - reflexivity.
  - reflexivity.
  - unfold consistent. apply (bool_decide_unpack _). vm_compute. exact I.
  - apply (bool_decide_unpack _). vm_compute. exact I.
  - reflexivity.
Defined.

(** X16. A text that is not JSON is answered with the error message
    on every connection of the member, one copy each, not only on the
    connection that sent the text; the loop goes on and nothing else
    changes. *)
Theorem malformed_text_answers_every_connection ws u conns h :
  healthy (hub_net h) →
  active_connections (manager (hub_net h)) !! u = Some conns →
  ∃ new,
    endpoint_turn ws u NotJson h
    = (Ok Continue,
       set_hub_net {| manager := manager (hub_net h); broken := broken (hub_net h);
                      delivered := (delivered (hub_net h) ++ new)%list |} h) ∧
    new ≡ₚ (fun x => (x, error_message)) <$> elements conns.
Proof.
  intros Hh Hl. exists ((fun x => (x, error_message)) <$> elements conns).
  split; [| done].
  unfold endpoint_turn, bind. rewrite on_manager_run.
  unfold send_personal_message. rewrite Hl.
  rewrite for_each_send_healthy; [done |].
  intros x Hx. eapply Hh; [exact Hl |]. by apply elem_of_elements.
Qed.

Lemma malformed_text_answers_every_connection_witness :
  ∃ new,
    endpoint_turn 1 7 NotJson {| hub_redis := Redis.empty; hub_net := two_members |}
    = (Ok Continue,
       set_hub_net {| manager := manager two_members; broken := broken two_members;
                      delivered := (delivered two_members ++ new)%list |}
         {| hub_redis := Redis.empty; hub_net := two_members |}) ∧
    new ≡ₚ (fun x => (x, error_message)) <$> elements ({[ 1%positive ]} : gset WebSocket).
Proof.
  apply (malformed_text_answers_every_connection 1 7 {[ 1%positive ]}
           {| hub_redis := Redis.empty; hub_net := two_members |}).
  - unfold healthy. apply (bool_decide_unpack _). vm_compute. exact I.
  - vm_compute. reflexivity.
Defined.

(** X17. A [puzzle_progress] message is handed to the websockets of
    the members that have the channel of that puzzle, the sender's own
    included when it has it, and to no other; channels of different
    puzzles are different, Redis and the registry are left as they
    were, and the loop goes on. *)
Theorem puzzle_progress_goes_to_the_puzzle_channel ws u m p g h :
  healthy (hub_net h) →
  f_type m = Some "puzzle_progress" →
  f_puzzle_id m = Some p →
  f_progress m = Some g →
  ∃ h',
    endpoint_turn ws u (Json m) h = (Ok Continue, h') ∧
    hub_redis h' = hub_redis h ∧
    sent_to (subscriber (manager (hub_net h)) (puzzle_channel p)) (user_progress u p g)
      (hub_net h) (hub_net h') ∧
    (∀ ws', subscriber (manager (hub_net h)) (puzzle_channel p) ws' →
            (ws', user_progress u p g) ∈ delivered (hub_net h')) ∧
    (∀ q, puzzle_channel q = puzzle_channel p → q = p).
Proof.
  intros Hh Hm Hp Hg.
  set (msg := user_progress u p g). set (c := puzzle_channel p).
  exists (set_hub_net (broadcast msg (Some c) (hub_net h)).2 h).
  assert ((broadcast msg (Some c) (hub_net h)).1 = Ok tt) as Hok.
  { by destruct (broadcast_loop_all msg (Some c)
                   (map_to_list (user_channels (manager (hub_net h)))) (hub_net h) Hh). }
  split.
  { unfold endpoint_turn. rewrite Hm, Hp, Hg. simpl. unfold bind.
    rewrite on_manager_run. fold msg. fold c. by rewrite Hok. }
  split; [done |]. split.
  { simpl. apply broadcast_subscribers. apply puzzle_channel_given. }
  split.
  - intros ws' (u' & conns & chans & Hl & Hws & Hch & Hc). simpl.
    assert (negb (given (Some c)) || bool_decide (default EmptyString (Some c) ∈ chans)
            = true) as Hcond.
    { unfold c. rewrite puzzle_channel_given. simpl. by apply bool_decide_eq_true. }
    exact (proj2 (broadcast_reaches msg (Some c) (hub_net h) u' chans conns ws'
                    Hh Hch Hcond Hl Hws)).
  - intros q Hq. by apply puzzle_channel_inj.
Qed.

Lemma puzzle_progress_goes_to_the_puzzle_channel_witness :
  ∃ h',
    endpoint_turn 1 7
      (Json {| f_type := Some "puzzle_progress"; f_puzzle_id := Some 4;
               f_progress := Some 50; f_category := None |})
      {| hub_redis := Redis.empty; hub_net := (connect 3 9 (Some "puzzle_4") two_members).2 |}
    = (Ok Continue, h') ∧
    hub_redis h' = Redis.empty ∧
    sent_to (subscriber (manager (connect 3 9 (Some "puzzle_4") two_members).2)
               (puzzle_channel 4)) (user_progress 7 4 50)
      (connect 3 9 (Some "puzzle_4") two_members).2 (hub_net h') ∧
    (∀ ws', subscriber (manager (connect 3 9 (Some "puzzle_4") two_members).2)
              (puzzle_channel 4) ws' →
            (ws', user_progress 7 4 50) ∈ delivered (hub_net h')) ∧
    (∀ q, puzzle_channel q = puzzle_channel 4 → q = 4).
Proof.
  apply (puzzle_progress_goes_to_the_puzzle_channel 1 7
           {| f_type := Some "puzzle_progress"; f_puzzle_id := Some 4;
              f_progress := Some 50; f_category := None |} 4 50
           {| hub_redis := Redis.empty;
              hub_net := (connect 3 9 (Some "puzzle_4") two_members).2 |}).
  - unfold healthy. apply (bool_decide_unpack _). vm_compute. exact I.
  - reflexivity.
  - reflexivity.
  - reflexivity.
Defined.

Lemma hub_range h :
  hub_cache "get_sorted_set_range" [VStr "leaderboard"; VInt 0; VInt 9; VInt 1] h
  = ((Redis.zrange "leaderboard" 0 9 true (hub_redis h)).1,
     set_hub_redis (Redis.zrange "leaderboard" 0 9 true (hub_redis h)).2 h).
Proof.
  unfold hub_cache, zoom.
  change (CacheService.call "get_sorted_set_range"
            [VStr "leaderboard"; VInt 0; VInt 9; VInt 1])
    with (Redis.zrange "leaderboard" 0 9 true).
  by destruct (Redis.zrange "leaderboard" 0 9 true (hub_redis h)).
Qed.

(** X18. [send_leaderboard_update] reads the ten best members of the
    sorted set ["leaderboard"] (all of them when there are fewer), best
    first, and hands the one message that carries them to the
    websockets of the members that have the channel ["leaderboard"],
    and to no other; Redis and the registry are left as they were. *)
Theorem leaderboard_update_carries_the_top_ten m h :
  healthy (hub_net h) →
  Redis.lookup_live "leaderboard" (hub_redis h) = Some (Redis.RZSet m) →
  ∃ top rest h',
    send_leaderboard_update h = (Ok tt, h') ∧
    hub_redis h' = hub_redis h ∧
    (top ++ rest)%list ≡ₚ map_to_list m ∧
    length top = (10 `min` size m)%nat ∧
    StronglySorted (fun a b => b.2 <= a.2) top ∧
    (∀ a b, a ∈ top → b ∈ rest → b.2 <= a.2) ∧
    sent_to (subscriber (manager (hub_net h)) "leaderboard") (leaderboard_message (VPairs top))
      (hub_net h) (hub_net h') ∧
    (∀ ws, subscriber (manager (hub_net h)) "leaderboard" ws →
           (ws, leaderboard_message (VPairs top)) ∈ delivered (hub_net h')).
Proof.
  intros Hh Hk.
  destruct (zrange_top "leaderboard" 9 m (hub_redis h) Hk) as
    (top & rest & Hr & Hperm & Hlen & Hsorted & Hcross); [lia |].
  set (msg := leaderboard_message (VPairs top)).
  exists top, rest, (set_hub_net (broadcast msg (Some "leaderboard") (hub_net h)).2 h).
  assert ((broadcast msg (Some "leaderboard") (hub_net h)).1 = Ok tt) as Hok.
  { by destruct (broadcast_loop_all msg (Some "leaderboard")
                   (map_to_list (user_channels (manager (hub_net h)))) (hub_net h) Hh). }
  split.
  { unfold send_leaderboard_update, bind. rewrite hub_range, Hr. simpl.
    rewrite on_manager_run. simpl. fold msg. rewrite Hok. by destruct h. }
  split; [done |]. split; [done |]. split; [exact Hlen |]. split; [done |].
  split; [done |]. split.
  { simpl. by apply broadcast_subscribers. }
  intros ws (u & conns & chans & Hl & Hws & Hch & Hc). simpl.
  assert (negb (given (Some "leaderboard"))
          || bool_decide (default EmptyString (Some "leaderboard") ∈ chans) = true) as Hcond.
  { simpl. by apply bool_decide_eq_true. }
  exact (proj2 (broadcast_reaches msg (Some "leaderboard") (hub_net h) u chans conns ws
                  Hh Hch Hcond Hl Hws)).
Qed.

Lemma leaderboard_update_carries_the_top_ten_witness :
  let h := {| hub_redis := (CacheService.add_to_sorted_set
                              [VStr "leaderboard"; VInt 100; VStr "7"] Redis.empty).2;
              hub_net := two_members |} in
  ∃ top rest h',
    send_leaderboard_update h = (Ok tt, h') ∧
    hub_redis h' = hub_redis h ∧
    (top ++ rest)%list ≡ₚ map_to_list ({[ "7" := 100 ]} : gmap string Z) ∧
    length top = (10 `min` size ({[ "7" := 100%Z ]} : gmap string Z))%nat ∧
    StronglySorted (fun a b => b.2 <= a.2) top ∧
    (∀ a b, a ∈ top → b ∈ rest → b.2 <= a.2) ∧
    sent_to (subscriber (manager (hub_net h)) "leaderboard") (leaderboard_message (VPairs top))
      (hub_net h) (hub_net h') ∧
    (∀ ws, subscriber (manager (hub_net h)) "leaderboard" ws →
           (ws, leaderboard_message (VPairs top)) ∈ delivered (hub_net h')).
Proof.
  apply (leaderboard_update_carries_the_top_ten {[ "7" := 100 ]}
           {| hub_redis := (CacheService.add_to_sorted_set
                              [VStr "leaderboard"; VInt 100; VStr "7"] Redis.empty).2;
              hub_net := two_members |}).
  - unfold healthy. apply (bool_decide_unpack _). vm_compute. exact I.
  - reflexivity.
Defined.

(** *** The websocket of the leaderboard module *)

(** X19. The first text that a client sends on the leaderboard
    websocket ends the connection with close code 4000, whatever the
    text: [json.loads] is called in a module that does not import
    [json], and the [NameError] is caught by the outer [except]. The
    websocket is closed but not disconnected, so it stays registered on
    the channel ["leaderboard"] with a transport that no longer works,
    and every later broadcast of the manager on that channel raises. *)
Theorem first_text_closes_the_leaderboard_socket get_current_user ws token u data rest w :
  get_current_user token = Ok u →
  consistent (manager (net w)) →
  ws ∉ broken (net w) →
  data ≠ Gone →
  ∃ w',
    leaderboard_websocket get_current_user ws token (data :: rest) w
    = (Ok (Rejected 4000), w') ∧
    manager (net w') = manager (connect ws u (Some "leaderboard") (net w)).2 ∧
    ws ∈ broken (net w') ∧
    subscriber (manager (net w')) "leaderboard" ws ∧
    (∀ msg, (Leaderboard.manager_broadcast msg (Some "leaderboard") w').1
            = Raise TransportError).
Proof.
  intros Hu Hc Hb Hdata.
  destruct (connect_joins (net w) ws u (Some "leaderboard") Hc Hb)
    as (n1 & Hn1 & Hact & Hch & _ & Hbr & Hlog).
  assert (∀ w2, leaderboard_loop ws u (data :: rest) w2 = (Raise NameError, w2))
    as Hloop.
  { intros w2. by destruct data. }
  assert (∃ w1, manager (net w1) = manager n1 ∧
            leaderboard_websocket get_current_user ws token (data :: rest) w
            = (Ok (Rejected 4000),
               set_net {| manager := manager (net w1); broken := {[ ws ]} ∪ broken (net w1);
                          delivered := delivered (net w1) |} w1)) as (w1 & Hw1 & ->).
  { unfold leaderboard_websocket. cbv zeta.
    unfold bind at 1. rewrite Hu. unfold bind at 1. rewrite on_net_run, Hn1.
    cbn [fst snd]. unfold bind at 1.
    destruct (cache_get_ok "global_leaderboard:0:100" (set_net n1 w)) as [[v ->] | ->].
    - unfold bind at 1. destruct (truthy v).
      + rewrite on_net_run. unfold send_json. cbn [net set_net].
        rewrite decide_False by (by rewrite Hbr).
        cbn [fst snd]. rewrite Hloop. eexists. split; [| reflexivity]. done.
      + cbn [ret]. rewrite Hloop. eexists. split; [| reflexivity]. done.
    - eexists. split; [| reflexivity]. done. }
  eexists. split; [reflexivity |]. cbn [net set_net manager broken].
  split; [by rewrite Hw1, Hn1 |].
  split; [apply elem_of_union; left; by apply elem_of_singleton |].
  assert (subscriber (manager (net w1)) "leaderboard" ws) as Hsub.
  { rewrite Hw1. eexists u, _, _. split; [exact Hact |].
    split; [apply elem_of_union; left; by apply elem_of_singleton |].
    split; [exact Hch |]. apply elem_of_union. left. by apply elem_of_singleton. }
  split; [exact Hsub |].
  intros msg. destruct Hsub as (u' & conns & chans & Hl & Hws & Hch' & Hin).
  unfold Leaderboard.manager_broadcast, zoom. cbn [net set_net].
  match goal with
  | |- context [broadcast msg ?ch ?n0] =>
      pose proof (broadcast_broken n0 msg ch u' chans conns ws Hch') as Hbroken
  end.
  destruct (broadcast msg _ _) as [r n2]. cbn [fst] in *. apply Hbroken; try done.
  - by apply bool_decide_eq_true.
  - apply elem_of_union. left. by apply elem_of_singleton.
Qed.

Lemma first_text_closes_the_leaderboard_socket_witness :
  ∃ w',
    leaderboard_websocket (fun _ => Ok 9) 5 "token"
      [Json {| f_type := Some "subscribe_category"; f_puzzle_id := None;
               f_progress := None; f_category := Some "math" |}] league
    = (Ok (Rejected 4000), w') ∧
    manager (net w') = manager (connect 5 9 (Some "leaderboard") (net league)).2 ∧
    5%positive ∈ broken (net w') ∧
    subscriber (manager (net w')) "leaderboard" 5 ∧
    (∀ msg, (Leaderboard.manager_broadcast msg (Some "leaderboard") w').1
            = Raise TransportError).
Proof.
  apply (first_text_closes_the_leaderboard_socket (fun _ => Ok 9) 5 "token" 9
           (Json {| f_type := Some "subscribe_category"; f_puzzle_id := None;
                    f_progress := None; f_category := Some "math" |}) [] league).
  - reflexivity.
  - unfold consistent. apply (bool_decide_unpack _). vm_compute. exact I.
  - apply (bool_decide_unpack _). vm_compute. exact I.
  - discriminate.
Defined.

(** *** Sessions that end well *)

(** A message of a type that [websocket_endpoint] has no branch for. *)
Lemma endpoint_turn_other ws u m ty h :
  f_type m = Some ty →
  ty ≠ "leaderboard_subscribe" → ty ≠ "puzzle_progress" →
  endpoint_turn ws u (Json m) h = (Ok Continue, h).
Proof.
  intros Hm H1 H2. unfold endpoint_turn. rewrite Hm.
  destruct (String.eqb_spec ty "leaderboard_subscribe") as [-> | _]; [done |].
  destruct (String.eqb_spec ty "puzzle_progress") as [-> | _]; [done |]. done.
Qed.

Lemma endpoint_loop_others ws u texts rest h :
  Forall (fun d => ∃ m ty, d = Json m ∧ f_type m = Some ty ∧
                           ty ≠ "leaderboard_subscribe" ∧ ty ≠ "puzzle_progress") texts →
  endpoint_loop ws u (texts ++ rest) h = endpoint_loop ws u rest h.
Proof.
  induction 1 as [| d texts (m & ty & -> & Hm & H1 & H2) _ IH]; [done |].
  rewrite <- app_comm_cons. cbn [endpoint_loop]. unfold bind at 1.
  by rewrite (endpoint_turn_other ws u m ty h Hm H1 H2).
Qed.

(** X28. A session on [websocket_endpoint] in which the client sends
    only messages of types that the endpoint has no branch for, and then
    goes, leaves no trace: the endpoint returns, nothing has been sent,
    and the registry and Redis are what they were before the client
    connected. *)
Theorem quiet_session_leaves_no_trace get_current_user ws t u texts h :
  given (Some t) = true →
  get_current_user t = Ok u →
  consistent (manager (hub_net h)) →
  ws ∉ broken (hub_net h) →
  ws ∉ default ∅ (active_connections (manager (hub_net h)) !! u) →
  Forall (fun d => ∃ m ty, d = Json m ∧ f_type m = Some ty ∧
                           ty ≠ "leaderboard_subscribe" ∧ ty ≠ "puzzle_progress") texts →
  websocket_endpoint get_current_user ws (Some t) None (texts ++ [Gone]) h = (Ok Finished, h).
Proof.
  intros Hg Hu Hc Hb Hout Htexts.
  destruct (connect_then_disconnect (hub_net h) ws u Hc Hb Hout) as (n1 & Hconnect & Hdisconnect).
  unfold websocket_endpoint. rewrite Hg, Hu. unfold bind at 1.
  rewrite on_manager_run, Hconnect. cbn [fst snd].
  rewrite endpoint_loop_others by done.
  simpl. unfold bind. rewrite on_manager_run. cbn [hub_net set_hub_net].
  rewrite Hdisconnect. by destruct h.
Qed.

Lemma quiet_session_leaves_no_trace_witness :
  websocket_endpoint (fun _ => Ok 9) 5 (Some "token") None
    ([Json {| f_type := Some "ping"; f_puzzle_id := None; f_progress := None;
              f_category := None |}] ++ [Gone])
    {| hub_redis := Redis.empty; hub_net := two_members |}
  = (Ok Finished, {| hub_redis := Redis.empty; hub_net := two_members |}).
Proof.
  apply (quiet_session_leaves_no_trace (fun _ => Ok 9) 5 "token" 9
           [Json {| f_type := Some "ping"; f_puzzle_id := None; f_progress := None;
                    f_category := None |}]
           {| hub_redis := Redis.empty; hub_net := two_members |}).
  - reflexivity.
  - reflexivity.
  - unfold consistent. apply (bool_decide_unpack _). vm_compute. exact I.
  - apply (bool_decide_unpack _). vm_compute. exact I.
  - apply (bool_decide_unpack _). vm_compute. exact I.
  - constructor; [| constructor]. eexists _, "ping". repeat split; discriminate.
Defined.

(** X29. A client that [leaderboard_websocket] accepts is registered
    on the channel ["leaderboard"] and is greeted with what the cache
    holds under ["global_leaderboard:0:100"], the key of the first
    page of [get_global_leaderboard]: one [initial_data] message with
    that value when it is truthy, and no message when the cache has
    nothing. Redis and the tables are not touched. *)
Theorem accepted_socket_gets_the_cached_page get_current_user ws token u v w :
  get_current_user token = Ok u →
  consistent (manager (net w)) →
  ws ∉ broken (net w) →
  cache "get" [VStr "global_leaderboard:0:100"] w = (Ok v, w) →
  ∃ w',
    leaderboard_websocket get_current_user ws token [] w = (Ok Waiting, w') ∧
    Leaderboard.global_key 0 100 = "global_leaderboard:0:100" ∧
    db w' = db w ∧ redis w' = redis w ∧
    manager (net w') = manager (connect ws u (Some "leaderboard") (net w)).2 ∧
    subscriber (manager (net w')) "leaderboard" ws ∧
    delivered (net w')
    = (delivered (net w)
       ++ if truthy v
          then [(ws, {| msg_type := "initial_data"; msg_category := None; msg_data := v |})]
          else [])%list.
Proof.
  intros Hu Hc Hb Hget.
  destruct (connect_joins (net w) ws u (Some "leaderboard") Hc Hb)
    as (n1 & Hn1 & Hact & Hch & _ & Hbr & Hlog).
  assert (cache "get" [VStr "global_leaderboard:0:100"] (set_net n1 w)
          = (Ok v, set_net n1 w)) as Hget1.
  { revert Hget. destruct w as [d o r n].
    change (cache "get" [VStr "global_leaderboard:0:100"])
      with (zoom redis set_redis (Redis.get "global_leaderboard:0:100")).
    unfold zoom, set_net, set_redis. simpl.
    destruct (Redis.get "global_leaderboard:0:100" r) as [res r']. simpl.
    by intros [= -> ->]. }
  assert (subscriber (manager n1) "leaderboard" ws) as Hsub.
  { eexists u, _, _. split; [exact Hact |].
    split; [apply elem_of_union; left; by apply elem_of_singleton |].
    split; [exact Hch |]. apply elem_of_union. left. by apply elem_of_singleton. }
  unfold leaderboard_websocket. cbv zeta.
  unfold bind at 1. rewrite Hu. unfold bind at 1. rewrite on_net_run, Hn1.
  cbn [fst snd]. unfold bind at 1. rewrite Hget1. unfold bind at 1.
  destruct (truthy v).
  - rewrite on_net_run. unfold send_json. cbn [net set_net].
    rewrite decide_False by (by rewrite Hbr). cbn [fst snd].
    eexists. split; [reflexivity |]. split; [reflexivity |].
    unfold set_net. cbn [snd db redis net manager delivered].
    repeat split; try done. by rewrite Hlog.
  - eexists. split; [reflexivity |]. split; [reflexivity |].
    unfold set_net. cbn [snd db redis net manager delivered].
    repeat split; try done. by rewrite Hlog, app_nil_r.
Qed.

Lemma accepted_socket_gets_the_cached_page_witness :
  ∃ w',
    leaderboard_websocket (fun _ => Ok 9) 5 "token" [] league_cached = (Ok Waiting, w') ∧
    Leaderboard.global_key 0 100 = "global_leaderboard:0:100" ∧
    db w' = db league_cached ∧ redis w' = redis league_cached ∧
    manager (net w') = manager (connect 5 9 (Some "leaderboard") (net league_cached)).2 ∧
    subscriber (manager (net w')) "leaderboard" 5 ∧
    delivered (net w')
    = (delivered (net league_cached)
       ++ if truthy (VStr first_page)
          then [(5%positive,
                 {| msg_type := "initial_data"; msg_category := None;
                    msg_data := VStr first_page |})]
          else [])%list.
Proof.
  apply (accepted_socket_gets_the_cached_page (fun _ => Ok 9) 5 "token" 9
           (VStr first_page) league_cached).
  - reflexivity.
  - unfold consistent. apply (bool_decide_unpack _). vm_compute. exact I.
  - apply (bool_decide_unpack _). vm_compute. exact I.
  - vm_compute. reflexivity.
Defined.

End SocketExtras.

(** ** Pages of the global leaderboard *)

Module ReadExtras.
Import Leaderboard RankingFacts FlightFacts CacheFacts CacheExtras Samples.

(** *** Pages cut from one row order *)

Lemma leaderboard_entries_app skip (l1 l2 : list User) :
  leaderboard_entries skip (l1 ++ l2)
  = (leaderboard_entries skip l1 ++ leaderboard_entries (skip + length l1) l2)%list.
Proof.
  unfold leaderboard_entries. rewrite imap_app. f_equal.
  apply imap_ext. intros i u _. simpl. f_equal. lia.
Qed.

(** X20. Consecutive pages cut from the same row order join into the
    larger page, ranks included: the page at [skip] of size [k]
    followed by the page at [skip + k] of size [m] is the page at
    [skip] of size [k + m]. So it is for the pages that the handler
    computes from the same tables. *)
Theorem consecutive_pages_join rows skip k m w :
  (leaderboard_entries skip (page skip k rows)
   ++ leaderboard_entries (skip + k) (page (skip + k) m rows))%list
  = leaderboard_entries skip (page skip (k + m) rows) ∧
  (compute_global skip k w ++ compute_global (skip + k) m w)%list
  = compute_global skip (k + m) w.
Proof.
  assert (∀ rows : list User,
             (leaderboard_entries skip (page skip k rows)
              ++ leaderboard_entries (skip + k) (page (skip + k) m rows))%list
             = leaderboard_entries skip (page skip (k + m) rows)) as Hjoin.
  { clear rows. intros rows. unfold page.
    rewrite <- (take_take_drop (drop skip rows) k m), leaderboard_entries_app.
    rewrite drop_drop. f_equal.
    destruct (decide (k ≤ length (drop skip rows))%nat) as [Hle | Hgt].
    - by rewrite length_take, Nat.min_l by done.
    - rewrite (drop_ge rows (skip + k)); [by rewrite take_nil |].
      rewrite length_drop in Hgt. lia. }
  split; [apply Hjoin |]. unfold compute_global. apply Hjoin.
Qed.

(** *** Cache keys *)

Lemma parse_digits_pretty_nat (n : nat) : is_Some (parse_digits (pretty n) 0).
Proof.
  change (pretty n) with (pretty (N.of_nat n)).
  destruct (N.of_nat n) as [| p]; [by eexists |].
  rewrite parse_digits_pretty_pos. by eexists.
Qed.

Lemma app_empty (s : string) : EmptyString +:+ s = s.
Proof. reflexivity. Qed.

Lemma app_first (c : ascii) (s t : string) : String c s +:+ t = String c (s +:+ t).
Proof. reflexivity. Qed.

Lemma colon_splits s1 : ∀ s2 t1 t2 a1 a2,
  is_Some (parse_digits s1 a1) → is_Some (parse_digits s2 a2) →
  s1 +:+ ":" +:+ t1 = s2 +:+ ":" +:+ t2 → s1 = s2 ∧ t1 = t2.
Proof.
  induction s1 as [| c s1 IH]; intros s2 t1 t2 a1 a2 H1 H2 Heq.
  - destruct s2 as [| c' s2]; repeat (rewrite app_empty in Heq || rewrite app_first in Heq).
    + by injection Heq as ->.
    + injection Heq as <- _. simpl in H2. by destruct H2.
  - destruct s2 as [| c' s2]; repeat (rewrite app_empty in Heq || rewrite app_first in Heq).
    + injection Heq as -> _. simpl in H1. by destruct H1.
    + injection Heq as <- Heq. simpl in H1, H2.
      destruct (digit_of c) as [d |]; [| by destruct H1].
      destruct (IH s2 t1 t2 _ _ H1 H2 Heq) as [-> ->]. done.
Qed.

(** X21. The cache keys of the pages are one to one: two requests
    share the key [f"global_leaderboard:{skip}:{limit}"] only when they
    ask for the same [skip] and the same [limit]. *)
Theorem page_keys_do_not_collide skip limit skip' limit' :
  global_key skip limit = global_key skip' limit' → skip = skip' ∧ limit = limit'.
Proof.
  unfold global_key. intros H. apply (inj (String.app _)) in H.
  apply (colon_splits _ _ _ _ 0 0) in H as [Hs Hl];
    [| apply parse_digits_pretty_nat | apply parse_digits_pretty_nat].
  split; by apply (inj pretty).
Qed.

Lemma page_keys_do_not_collide_witness : 0%nat = 0%nat ∧ 100%nat = 100%nat.
Proof. apply (page_keys_do_not_collide 0 100 0 100). reflexivity. Defined.

(** *** A page that is not cached *)

(** X22. A request for a page that the cache does not hold (or holds
    as an empty text) fails: the handler computes the page from the
    tables and hands the list to [cache.set], and the Redis client
    refuses a list ([DataError]). Nothing is stored, so the tables,
    Redis and the registry are what they were, and the next request
    for the page fails in the same way. *)
Theorem uncached_page_request_fails skip limit payload w :
  (cache "get" [VStr (global_key skip limit)] w).1 = Ok payload →
  truthy payload = false →
  get_global_leaderboard skip limit w = (Raise DataError, w) ∧
  get_global_leaderboard skip limit (get_global_leaderboard skip limit w).2
  = (Raise DataError, w).
Proof.
  intros Hget Hfalse.
  assert (get_global_leaderboard skip limit w = (Raise DataError, w)) as Hfails.
  { unfold get_global_leaderboard, bind.
    destruct (cache_get_ok (global_key skip limit) w) as [[v Hv] | Hv];
      rewrite Hv in Hget |- *; [| discriminate Hget].
    injection Hget as ->. rewrite Hfalse. unfold gets. by rewrite cache_set_page. }
  split; [exact Hfails |]. by rewrite Hfails.
Qed.

Lemma uncached_page_request_fails_witness :
  get_global_leaderboard 0 100 league = (Raise DataError, league) ∧
  get_global_leaderboard 0 100 (get_global_leaderboard 0 100 league).2
  = (Raise DataError, league).
Proof.
  apply (uncached_page_request_fails 0 100 VNone league); reflexivity.
Defined.

End ReadExtras.

(** ** Submitting an attempt *)

Module SubmitExtras.
Import Puzzles CacheFacts Samples.

(** The handler in its three outcomes, once the puzzle is found and the
    validator has answered. *)
Lemma serve_wrong attempts_count pid attempt u w puzzle :
  puzzles (db w) !! pid = Some puzzle →
  validate_solution (category puzzle) (solution_submitted attempt) (content_solution puzzle)
  = Ok false →
  outage w = false →
  ∃ r w',
    serve_submit_attempt attempts_count pid attempt u w = (Ok r, 0%nat, w') ∧
    a_user_id r = u ∧ a_puzzle_id r = pid ∧
    a_solution_submitted r = solution_submitted attempt ∧
    a_is_correct r = false ∧ a_points_earned r = 0 ∧
    attempts (db w') = (attempts (db w) ++ [r])%list ∧
    puzzles (db w') = puzzles (db w) ∧
    redis w' = redis w ∧ net w' = net w ∧
    (∀ row, users (db w) !! u = Some row →
            ∃ row', users (db w') !! u = Some row' ∧
                    total_score row' = total_score row ∧ win_streak row' = 0) ∧
    (∀ u', u' ≠ u → users (db w') !! u' = users (db w) !! u').
Proof.
  intros Hp Hv Hout. unfold serve_submit_attempt, submit_attempt.
  cbn [world session background_tasks]. rewrite Hp, Hv.
  unfold commit, bind, modify, add_task, set_session. simpl. rewrite Hout. simpl.
  eexists _, _. split; [reflexivity |]. simpl. repeat split.
  - intros row Hrow. rewrite lookup_alter_eq, Hrow. simpl. by eexists.
  - intros u' Hne. by rewrite lookup_alter_ne.
Qed.

Lemma serve_right attempts_count pid attempt u w puzzle n :
  puzzles (db w) !! pid = Some puzzle →
  validate_solution (category puzzle) (solution_submitted attempt) (content_solution puzzle)
  = Ok true →
  attempts_count (filter (fun a => a_puzzle_id a = pid) (attempts (db w))) = Ok n →
  outage w = false →
  ∃ r w',
    serve_submit_attempt attempts_count pid attempt u w = (Ok r, 1%nat, w') ∧
    a_user_id r = u ∧ a_puzzle_id r = pid ∧
    a_solution_submitted r = solution_submitted attempt ∧
    a_is_correct r = true ∧ a_points_earned r = points puzzle ∧
    attempts (db w') = (attempts (db w) ++ [r])%list ∧
    redis w' = redis w ∧ net w' = net w ∧
    (∀ row, users (db w) !! u = Some row →
            ∃ row', users (db w') !! u = Some row' ∧
                    total_score row' = total_score row + points puzzle ∧
                    win_streak row' = win_streak row + 1) ∧
    (∀ u', u' ≠ u → users (db w') !! u' = users (db w) !! u').
Proof.
  intros Hp Hv Hn Hout. unfold serve_submit_attempt, submit_attempt.
  cbn [world session background_tasks]. rewrite Hp, Hv.
  unfold commit, bind, modify, add_task, set_session. simpl. rewrite Hn. simpl.
  rewrite Hout. simpl.
  eexists _, _. split; [reflexivity |]. simpl. repeat split.
  - intros row Hrow. rewrite lookup_alter_eq, Hrow. simpl. by eexists.
  - intros u' Hne. by rewrite lookup_alter_ne.
Qed.

(** X23. The request is answered exactly when the puzzle exists, the
    validator returns, the count of the puzzle's attempts returns when
    the answer is right, and the database takes the commit. *)
Theorem attempt_is_answered_iff attempts_count pid attempt u w :
  is_ok (serve_submit_attempt attempts_count pid attempt u w).1.1 = true ↔
  ∃ puzzle correct,
    puzzles (db w) !! pid = Some puzzle ∧
    validate_solution (category puzzle) (solution_submitted attempt) (content_solution puzzle)
    = Ok correct ∧
    (correct = true →
     is_ok (attempts_count (filter (fun a => a_puzzle_id a = pid) (attempts (db w)))) = true) ∧
    outage w = false.
Proof.
  split.
  - unfold serve_submit_attempt, submit_attempt. cbn [world session background_tasks].
    destruct (puzzles (db w) !! pid) as [puzzle |] eqn:Hp; [| done].
    destruct (validate_solution _ _ _) as [correct | e] eqn:Hv; [| done].
    unfold commit, bind, modify, add_task, set_session.
    intros H. exists puzzle, correct. split; [done |]. split; [done |].
    destruct correct; simpl in H.
    + destruct (attempts_count _) as [n | e]; simpl in H; [| done].
      split; [done |]. by destruct (outage w).
    + split; [done |]. by destruct (outage w).
  - intros (puzzle & correct & Hp & Hv & Hcount & Hout). destruct correct.
    + destruct (attempts_count (filter (fun a => a_puzzle_id a = pid) (attempts (db w))))
        as [n | e] eqn:Hn; [| by specialize (Hcount eq_refl)].
      destruct (serve_right attempts_count pid attempt u w puzzle n Hp Hv Hn Hout)
        as (r & w' & -> & _). done.
    + destruct (serve_wrong attempts_count pid attempt u w puzzle Hp Hv Hout)
        as (r & w' & -> & _). done.
Qed.

Lemma attempt_is_answered_iff_witness :
  is_ok (serve_submit_attempt count_rows 10 right_answer 1 arena).1.1 = true.
Proof.
  apply (proj2 (attempt_is_answered_iff count_rows 10 right_answer 1 arena)).
  exists riddle, true. repeat split.
Defined.

(** X24. An answered request has recorded the attempt it returns and
    nothing else in the attempts: the attempt is the member's, on the
    puzzle, with the submitted solution, appended to the table. The
    member's total score has grown by the points of the attempt and
    the win streak by one, or the streak is zero after a wrong answer;
    the rows of the other members are untouched. A right answer leaves
    one background task, a wrong one none, and after the task has run
    Redis and the websocket registry are what they were. *)
Theorem answered_attempt_is_recorded attempts_count pid attempt u w r k w' :
  serve_submit_attempt attempts_count pid attempt u w = (Ok r, k, w') →
  attempts (db w') = (attempts (db w) ++ [r])%list ∧
  a_user_id r = u ∧ a_puzzle_id r = pid ∧
  a_solution_submitted r = solution_submitted attempt ∧
  k = (if a_is_correct r then 1 else 0)%nat ∧
  redis w' = redis w ∧ net w' = net w ∧
  (∀ row, users (db w) !! u = Some row →
          ∃ row', users (db w') !! u = Some row' ∧
                  total_score row' = total_score row + a_points_earned r ∧
                  win_streak row' = if a_is_correct r then win_streak row + 1 else 0) ∧
  (∀ u', u' ≠ u → users (db w') !! u' = users (db w) !! u').
Proof.
  intros Hserve.
  assert (is_ok (serve_submit_attempt attempts_count pid attempt u w).1.1 = true) as Hok
    by (by rewrite Hserve).
  assert (∃ puzzle correct,
             puzzles (db w) !! pid = Some puzzle ∧
             validate_solution (category puzzle) (solution_submitted attempt)
               (content_solution puzzle) = Ok correct ∧
             (correct = true →
              is_ok (attempts_count (filter (fun a => a_puzzle_id a = pid) (attempts (db w))))
              = true) ∧
             outage w = false) as (puzzle & correct & Hp & Hv & Hcount & Hout).
  { revert Hok. unfold serve_submit_attempt, submit_attempt.
    cbn [world session background_tasks].
    destruct (puzzles (db w) !! pid) as [puzzle |] eqn:Hp; [| done].
    destruct (validate_solution _ _ _) as [correct | e] eqn:Hv; [| done].
    unfold commit, bind, modify, add_task, set_session.
    intros H. exists puzzle, correct. split; [done |]. split; [done |].
    destruct correct; simpl in H.
    + destruct (attempts_count _) as [n | e]; simpl in H; [| done].
      split; [done |]. by destruct (outage w).
    + split; [done |]. by destruct (outage w). }
  destruct correct.
  - destruct (attempts_count (filter (fun a => a_puzzle_id a = pid) (attempts (db w))))
      as [n | e] eqn:Hn; [| by specialize (Hcount eq_refl)].
    destruct (serve_right attempts_count pid attempt u w puzzle n Hp Hv Hn Hout)
      as (r1 & w1 & Hs & Hu & Hpid & Hsol & Hc & Hpts & Hatt & Hred & Hnet & Hrow & Hoth).
    rewrite Hserve in Hs. injection Hs as -> -> ->.
    rewrite Hc, Hpts. repeat split; done.
  - destruct (serve_wrong attempts_count pid attempt u w puzzle Hp Hv Hout)
      as (r1 & w1 & Hs & Hu & Hpid & Hsol & Hc & Hpts & Hatt & _ & Hred & Hnet & Hrow & Hoth).
    rewrite Hserve in Hs. injection Hs as -> -> ->.
    rewrite Hc, Hpts. repeat split; try done.
    intros row Hr. destruct (Hrow row Hr) as (row' & ? & ? & ?). exists row'.
    repeat split; [done | lia | done].
Qed.

Lemma answered_attempt_is_recorded_witness :
  let r := {| a_user_id := 1; a_puzzle_id := 10; a_solution_submitted := Text "42";
              a_is_correct := true; a_time_taken := 30; a_points_earned := 250 |} in
  let w' := (serve_submit_attempt count_rows 10 right_answer 1 arena).2 in
  attempts (db w') = (attempts (db arena) ++ [r])%list ∧
  a_user_id r = 1 ∧ a_puzzle_id r = 10 ∧
  a_solution_submitted r = solution_submitted right_answer ∧
  1%nat = (if a_is_correct r then 1 else 0)%nat ∧
  redis w' = redis arena ∧ net w' = net arena ∧
  (∀ row, users (db arena) !! 1 = Some row →
          ∃ row', users (db w') !! 1 = Some row' ∧
                  total_score row' = total_score row + a_points_earned r ∧
                  win_streak row' = if a_is_correct r then win_streak row + 1 else 0) ∧
  (∀ u', u' ≠ 1 → users (db w') !! u' = users (db arena) !! u').
Proof.
  apply (answered_attempt_is_recorded count_rows 10 right_answer 1 arena
           {| a_user_id := 1; a_puzzle_id := 10; a_solution_submitted := Text "42";
              a_is_correct := true; a_time_taken := 30; a_points_earned := 250 |}
           1%nat (serve_submit_attempt count_rows 10 right_answer 1 arena).2).
  vm_compute. reflexivity.
Defined.

(** X25. No attempt on a coding puzzle is ever recorded. The validator
    of coding solutions answers yes without looking at the submission,
    so every submission takes the branch of the right answers, and
    there [puzzle.attempts.count()], on the plain list that the
    relationship of the model gives, raises [TypeError]: whatever was
    submitted, the request fails, nothing is committed and no task is
    run. *)
Theorem coding_attempts_always_fail pid attempt u w puzzle :
  puzzles (db w) !! pid = Some puzzle →
  category puzzle = CODING →
  validate_solution (category puzzle) (solution_submitted attempt) (content_solution puzzle)
  = Ok true ∧
  serve_submit_attempt count_of_list pid attempt u w = (Raise TypeError, 0%nat, w).
Proof.
  intros Hp Hcat.
  assert (validate_solution (category puzzle) (solution_submitted attempt)
            (content_solution puzzle) = Ok true) as Hv by (by rewrite Hcat).
  split; [exact Hv |].
  unfold serve_submit_attempt, submit_attempt.
  cbn [world session background_tasks]. rewrite Hp, Hv.
  unfold commit, bind, modify, add_task, set_session, count_of_list. reflexivity.
Qed.

Lemma coding_attempts_always_fail_witness :
  let kata := {| puzzle_id := 11; category := CODING; content_solution := Text "tests";
                 points := 300; times_solved := 0; success_rate := (0, 1) |} in
  let w := set_db {| users := users (db league); puzzles := {[ 11 := kata ]};
                     attempts := [] |} league in
  let attempt := {| solution_submitted := Dict {[ "code" := AText "pass" ]};
                    time_taken := 5 |} in
  validate_solution (category kata) (solution_submitted attempt) (content_solution kata)
  = Ok true ∧
  serve_submit_attempt count_of_list 11 attempt 1 w = (Raise TypeError, 0%nat, w).
Proof.
  apply (coding_attempts_always_fail 11
           {| solution_submitted := Dict {[ "code" := AText "pass" ]}; time_taken := 5 |} 1
           (set_db {| users := users (db league);
                      puzzles := {[ 11 := {| puzzle_id := 11; category := CODING;
                                             content_solution := Text "tests";
                                             points := 300; times_solved := 0;
                                             success_rate := (0, 1) |} ]};
                      attempts := [] |} league)
           {| puzzle_id := 11; category := CODING; content_solution := Text "tests";
              points := 300; times_solved := 0; success_rate := (0, 1) |});
    reflexivity.
Defined.

(** X26. With [puzzle.attempts] the plain list that the relationship
    of the model declares, [puzzle.attempts.count()] raises
    [TypeError]: no right answer is ever answered. The request fails,
    nothing is committed, and no task is run. *)
Theorem right_answers_fail_on_the_count pid attempt u w puzzle :
  puzzles (db w) !! pid = Some puzzle →
  validate_solution (category puzzle) (solution_submitted attempt) (content_solution puzzle)
  = Ok true →
  serve_submit_attempt count_of_list pid attempt u w = (Raise TypeError, 0%nat, w).
Proof.
  intros Hp Hv. unfold serve_submit_attempt, submit_attempt.
  cbn [world session background_tasks]. rewrite Hp, Hv.
  unfold commit, bind, modify, add_task, set_session, count_of_list. reflexivity.
Qed.

Lemma right_answers_fail_on_the_count_witness :
  serve_submit_attempt count_of_list 10 right_answer 1 arena = (Raise TypeError, 0%nat, arena).
Proof.
  apply (right_answers_fail_on_the_count 10 right_answer 1 arena riddle);
    reflexivity.
Defined.

(** X27. A text submitted to a math puzzle makes the validator raise
    [TypeError] on the subtraction: the request fails and nothing is
    recorded. *)
Theorem math_puzzles_fail_on_texts attempts_count pid attempt u w puzzle text :
  puzzles (db w) !! pid = Some puzzle →
  category puzzle = MATH →
  solution_submitted attempt = Text text →
  serve_submit_attempt attempts_count pid attempt u w = (Raise TypeError, 0%nat, w).
Proof.
  intros Hp Hcat Htext. unfold serve_submit_attempt, submit_attempt.
  cbn [world session background_tasks]. rewrite Hp, Hcat, Htext. reflexivity.
Qed.

Lemma math_puzzles_fail_on_texts_witness :
  let sum := {| puzzle_id := 12; category := MATH; content_solution := Number 4;
                points := 100; times_solved := 0; success_rate := (0, 1) |} in
  let w := set_db {| users := users (db league); puzzles := {[ 12 := sum ]};
                     attempts := [] |} league in
  serve_submit_attempt count_rows 12 {| solution_submitted := Text "four"; time_taken := 5 |} 1 w
  = (Raise TypeError, 0%nat, w).
Proof.
  apply (math_puzzles_fail_on_texts count_rows 12
           {| solution_submitted := Text "four"; time_taken := 5 |} 1
           (set_db {| users := users (db league);
                      puzzles := {[ 12 := {| puzzle_id := 12; category := MATH;
                                             content_solution := Number 4;
                                             points := 100; times_solved := 0;
                                             success_rate := (0, 1) |} ]};
                      attempts := [] |} league)
           {| puzzle_id := 12; category := MATH; content_solution := Number 4;
              points := 100; times_solved := 0; success_rate := (0, 1) |} "four");
    reflexivity.
Defined.

End SubmitExtras.
